(* ===== verification/_CoqProject ===== *)
-Q . S2P
Prelude.v
Driver.v
NorFlash.v
FlashPrg.v
Session.v
Protocol.v
Image.v
Refinement.v
