(* ===== verification/Prelude.v ===== *)
(** * A verification library for the Keil flash algorithm
      [src/STM32H743_W25Q256/FlashPrg.c] (STM32H743 + W25Q256 over QSPI)

    ** The program
    [FlashPrg.c] is a Keil MDK flash programming algorithm.  The host tool
    (the debugger) loads it into the target's RAM and calls its seven entry
    points: [Init], [UnInit], [EraseChip], [EraseSector], [BlankCheck],
    [ProgramPage] and [Verify].  The algorithm keeps two globals:
    - [base_adr] (line 48): the device base address captured by [Init];
    - [aux_buf] (line 47): a [PAGE_SIZE] = 4096 byte scratch buffer that
      [Verify] reads the flash into.  It is never cleared, so it keeps the
      bytes of earlier verifies.
    Every other entry point translates a host address [adr] to the chip
    offset [adr - base_adr], computed in 32-bit [unsigned long] arithmetic.
    It then calls the W25QXX chip driver: [W25QXX_Erase_Chip],
    [W25QXX_Erase_Sector], [W25QXX_Write_NoCheck] or [W25QXX_Read].
    The driver ([w25qxx.c]) is not part of [src/].

    ** The files (in dependency order)
    - [Prelude] (this file) holds what every component shares:
      + 32-bit [unsigned long] arithmetic as [Z] with its wrap-around
        written out ([wrap32], and the notations [+ᵤ] and [-ᵤ]);
      + bytes as [Z] in [0, 256) ([is_byte]) and the AND of bytes;
      + a small error monad [result] on stdpp's [MRet]/[MBind].  Its
        [Fault]s stand for the C undefined behaviours the code can reach:
        [BufferOverflow] and [OutOfBoundsRead];
      + the hint databases [flash], the tactic [by_decide], and the generic lemmas on words ([wrap32_sub_inj_r],
        [wrap32_sub_nowrap]) and bytes ([land_byte], [land_erased]).
    - [Driver] gives the interface of the chip driver.  The class
      [FlashChip] lists the W25QXX operations the algorithm calls, with
      the driver's invariant [chip_wf].  The class [FlashChipLaws] states
      what the controller needs from them, all through [W25QXX_Read].
      The driver is modelled from the spec (§5, §6), because its code is
      not under [src/].
    - [NorFlash] is a concrete NOR flash.  Its state is a function from
      offset to byte.  Erasing sets bytes to 0xFF;
      programming ANDs the data into the cell.  The instance
      [nor_chip_laws] proves that it satisfies [FlashChipLaws].
    - [FlashPrg] models [FlashPrg.c] line by line.  The record [FlashPrg]
      holds [aux_buf], [base_adr] and the chip.  Each entry point ([Init],
      [UnInit], [EraseChip], [EraseSector], [BlankCheck], [ProgramPage],
      [Verify]) is a definition that takes this state and returns the new
      state with the C return value, or a [result] where the C code can
      reach undefined behaviour.  [dev_offset] is the expression
      [adr-base_adr].  [after_read] and [read_into_aux] are
      [W25QXX_Read(aux_buf, adr-base_adr, sz)].  The [for] loop of [Verify]
      is the [Fixpoint] [verify_loop].  The file is written in [Section]s
      over any driver that satisfies [FlashChipLaws].  Its concrete runs
      use [NorFlash].
    - [Session] models the host tool's call sequence.  [host_call] is one
      entry-point call, [dispatch] runs it and [run] runs a list.  [loaded]
      is the algorithm just loaded, with zeroed globals.  [reachable] is
      the inductive closure from [loaded] by calls and by reloads: the host
      resets the target before each phase (the comment on line 50), and
      the flash contents survive.
    - [Protocol] models the order in which the host calls the entry
      points (spec §2, §3, §4.1).  A [phase] is [Idle] or [Active base]
      (a session opened by [Init base]).  [proto_step] is the transition
      relation of the protocol, [proto_next] its executable check, proved
      equivalent, and [proto_run] runs the check over a list of calls.
      [sys_reach] runs the algorithm and the protocol in lockstep from a
      fresh load.  A reset can happen at any point: it reloads the
      algorithm and closes the session.
    - [Image] models the host downloading an image of whole pages:
      [erase_calls], [program_calls] and [verify_calls] are its three
      phases, which step the address by one sector (= one page, 4 KiB).
      [host_session] (in [Protocol]) wraps a phase in [Init] / [UnInit].
    - [Refinement] states the spec's abstract controller (§3, §4.1): a
      base address and the device's bytes, without the page buffer.
      [spec_step] is its step, [spec_ok] the host's side of the contract,
      and [refines] relates it to the algorithm run on any driver that
      is a byte memory ([FlashMemory] in [Driver]; [NorFlash] is one).

    ** The theorems
    - [Verify] ([FlashPrg]):
      + [verify_loop_first_mismatch]: the loop is equivalent to the
        reference [first_mismatch], which is built on stdpp's [list_find];
      + [Verify_result]: the full behaviour when [sz <= PAGE_SIZE], a
        terminating run;
      + [Verify_refines_verify_spec]: refinement of the spec's abstract
        check [verify_spec] when the stale tail agrees, which covers every
        full page;
      + [Verify_reports_first_mismatch]: a mismatch below [sz] is always
        reported exactly;
      + [Verify_reports_stale_tail]: the divergence from the spec.  An
        exact partial page can still be reported as failing at a stale
        byte past [sz];
      + [Verify_overflow]: [sz > PAGE_SIZE] overflows [aux_buf];
      + [verify_loop_take]: the loop reads the host buffer only in its
        first [PAGE_SIZE] bytes (the spec's boundary property, §8);
      + [Verify_empty]: the empty input, [sz = 0].  Nothing is read, but
        the stale [aux_buf] is still compared, and a failure can be
        reported where the spec expects [adr].
    - The other entry points ([FlashPrg]): [EraseSector_erases] and
      [ProgramPage_writes] give their full effect at offset
      [adr - base_adr].  [ProgramPage_short_buffer] is the fault case.
      [dev_offset_value] gives the 32-bit wrap-around of the offset, and
      [session_offsets_differ] shows that different bases give different
      offsets.
      [ProgramPage_Verify_roundtrip] is the round trip on a full page.
      [EraseChip_erases] gives the full effect of [EraseChip].
      [Init_sets_base] shows that [Init] sets the base and keeps
      [aux_buf].  [Verify_result_window] bounds the returned address to
      one page past [adr], modulo 2^32.
    - The session ([Session]): [reachable_inv] proves the invariant
      [flashprg_inv] by rule induction.  [run_session_base] shows that
      only [Init] sets the base.  [dispatch_status] shows that every
      status but [Verify]'s is fixed.  [session_program_verify] is the end
      to end erase / program / verify sequence.  [run_total] shows that
      every list of calls made within the calling convention ([call_wf],
      [call_ok]) completes, with one return value per call.
    - The protocol ([Protocol]): [sys_reach_inv] shows that the protocol's
      system is a subset of [reachable] and that inside a session
      [base_adr] is the session's base.  [page_buffer_outlives_session]
      shows that [aux_buf] survives from
      one session to the next, against spec §3.
    - The image ([Image]): [image_download] composes the three phases.
      Every return value of the download is known, and the device ends
      up holding the image.  Its proof goes through one lemma per phase,
      [run_erase_calls], [run_program_calls] and [run_verify_calls].  Each
      is an induction on the pages, with a frame condition on the bytes
      below the current page.  [keil_download] runs the same download as
      Keil does: three protocol sessions with a reset before the later
      two.  Every return value is known, the system ends between
      sessions, and the device holds the image.
      [verify_partial_last_page] lifts the stale-tail divergence to a
      download whose last page is partial.  That verify compares the host
      buffer past the data with the previous page.  Its witness is a
      false failure on a device that holds exactly the data.
      [verify_partial_reused_buffer] shows why the code works for a host
      that reuses one page buffer: the stale bytes then agree.
      [program_without_erase] shows, on the NOR model, what the order
      erase-then-program protects: without the erase the page holds the
      AND of old and new bytes, and [Verify] reports the first byte that
      differs from the data.
    - The refinement ([Refinement]): [run_refines] is a forward
      simulation.  Every run of calls within the contract returns what
      the spec's machine returns, for any driver that is a byte memory.
      The contract asks for whole-page verifies; [Verify_reports_stale_tail]
      is why.
    A claim's statement that other proofs need is proved once as a helper
    lemma ([verify_loop_eq], [Verify_eq], [Verify_spec_eq],
    [ProgramPage_eq], [ProgramPage_Verify_eq], [dispatch_flashprg_inv],
    [reachable_flashprg_inv]).  The other proofs use the helper, not the
    claim.

    ** Bounds and fuel
    The only loop is [Verify]'s [for (i = 0; i < PAGE_SIZE; i++)].
    [verify_loop] recurses on the number of iterations left, starting at
    [PAGE_SIZE], so it is structural and always terminates; no fuel is
    needed.  [int i] stays in [0, 4096), so it never overflows.  The
    address sums and differences are [unsigned long], which is 32 bits on
    the Cortex-M7, so they wrap modulo 2^32 ([wrap32]).
    [run], [proto_run] and the call lists of [Image] are structural on
    their list, so they terminate too.  [run_total] proves that a run
    gives its result, rather than assuming it does.  [image_download] requires the image to
    end at or below 2^32, so its page addresses do not wrap.  Only the
    last success code, [a + n * 4096], can wrap, to 0.

    ** Not modelled
    - The peripheral bring-up in [Init] ([Stm32_Clock_Init], [delay_init],
      [uart_init], [LED_Init]): pure hardware set-up with no state the
      algorithm reads.  The clock and function-code arguments are ignored
      by the code.
    - The driver's QSPI command sequences, its busy-waiting and the width
      of its size arguments: the driver is abstracted by [FlashChip], as
      the spec says.
    - The units of the driver's arguments.  [FlashChip] reads them as the
      spec does (§4.1, §8): [W25QXX_Erase_Sector] takes the byte offset
      [adr-base_adr] and erases the sector that holds it, and the sizes
      of [W25QXX_Write_NoCheck] and [W25QXX_Read] are unbounded.  The
      common W25QXX driver takes a sector number instead (it multiplies
      [Dst_Addr] by 4096) and [u16] sizes.  [w25qxx.c] is not in [src/],
      so this cannot be decided here.  With such a driver
      [EraseSector_erases] would not hold: [EraseSector adr] would erase
      the sector at [(adr-base_adr)*4096].
    - The physical flash size (32 MiB): offsets are unbounded integers,
      since bounds checking is the driver's job (spec §3).
    - The QSPI controller driver ([qspi.c]) and the device description
      ([FlashOS.H], [FlashDev.c]): not in [src/].  The controller uses
      only the entry-point signatures that the description fixes, and
      those signatures are what [host_call] models.

    ** Status
    Every line of [FlashPrg.c] that has an effect is modelled: the two
    globals, the seven entry points, the offset arithmetic, the read into
    [aux_buf] and the compare loop.  The lines the map leaves out are the
    licence header, the [#include]s, comments and blank lines.  The parts
    listed under "Not modelled" are hardware set-up or code that is not
    in [src/], and they are abstracted by [FlashChip] and [FlashMemory].
    A backward simulation adds nothing to [run_refines], because [run] is
    a function: the values [run_refines] gives are the only ones.  The
    forced erase of [BlankCheck] is [dispatch_status]: the status is
    always 1, so the host always erases. *)

From stdpp Require Export base list numbers.
From Stdlib Require Export ZArith Lia.

Declare Scope flash_scope.
Delimit Scope flash_scope with flash.
Open Scope Z_scope.

(** ** 32-bit unsigned arithmetic *)

Definition U32_MOD : Z := 2 ^ 32.

(** The conversion of a C integer expression to [unsigned long]. *)
Definition wrap32 (z : Z) : Z := z mod U32_MOD.

(** A value an [unsigned long] can hold. *)
Definition is_u32 (z : Z) : Prop := 0 <= z < U32_MOD.

#[export] Instance is_u32_dec z : Decision (is_u32 z).
Proof. unfold is_u32. apply _. Defined.

Notation "a +ᵤ b" := (wrap32 (a + b)) (at level 50, left associativity) : flash_scope.
Notation "a -ᵤ b" := (wrap32 (a - b)) (at level 50, left associativity) : flash_scope.

Open Scope flash_scope.

(** ** Bytes *)

(** An [unsigned char] / [uint8_t] value. *)
Definition is_byte (b : Z) : Prop := 0 <= b < 256.

#[export] Instance is_byte_dec b : Decision (is_byte b).
Proof. unfold is_byte. apply _. Defined.

(** The value of an erased NOR flash byte. *)
Definition ERASED : Z := 255.

(** ** Undefined behaviour as an error monad *)

(** The C undefined behaviours the algorithm can reach. *)
Inductive fault :=
  | BufferOverflow     (* a write past the end of a fixed-size array *)
  | OutOfBoundsRead.   (* a read past the end of the memory a pointer designates *)

#[export] Instance fault_eq_dec : EqDecision fault.
Proof. solve_decision. Defined.

Inductive result (A : Type) :=
  | Ok (a : A)
  | Fault (f : fault).
Arguments Ok {A} a.
Arguments Fault {A} f.

#[export] Instance result_ret : MRet result := fun _ a => Ok a.
#[export] Instance result_bind : MBind result :=
  fun _ _ k m => match m with Ok a => k a | Fault f => Fault f end.

Lemma result_bind_Ok {A B} (a : A) (k : A -> result B) : (Ok a ≫= k) = k a.
Proof. reflexivity. Qed.

Lemma result_bind_Fault {A B} (f : fault) (k : A -> result B) : (Fault f ≫= k) = Fault f.
Proof. reflexivity. Qed.

(** ** Lemmas on words *)

Create HintDb flash.

Lemma wrap32_range z : is_u32 (wrap32 z).
Proof. unfold is_u32, wrap32, U32_MOD. apply Z.mod_pos_bound. lia. Qed.

Lemma wrap32_small z : is_u32 z -> wrap32 z = z.
Proof. unfold is_u32, wrap32. intros. apply Z.mod_small. lia. Qed.

Lemma wrap32_idem z : wrap32 (wrap32 z) = wrap32 z.
Proof. apply wrap32_small, wrap32_range. Qed.

Lemma wrap32_add_r a b : wrap32 (a + wrap32 b) = wrap32 (a + b).
Proof. unfold wrap32. rewrite Zplus_mod_idemp_r. reflexivity. Qed.

Lemma wrap32_sub_r a b : wrap32 (a - wrap32 b) = wrap32 (a - b).
Proof. unfold wrap32. rewrite Zminus_mod_idemp_r. reflexivity. Qed.

(** For a fixed address, the translated offset determines the base. *)
Lemma wrap32_sub_inj_r a b1 b2 :
  is_u32 b1 -> is_u32 b2 -> a -ᵤ b1 = a -ᵤ b2 -> b1 = b2.
Proof.
  intros H1 H2 Heq.
  rewrite <- (wrap32_small b1), <- (wrap32_small b2) by done.
  replace b1 with (a - (a - b1)) by lia. replace b2 with (a - (a - b2)) by lia.
  by rewrite <- (wrap32_sub_r a (a - b1)), <- (wrap32_sub_r a (a - b2)), Heq.
Qed.

(** A translated offset that stays in range needs no wrap. *)
Lemma wrap32_sub_nowrap a b : is_u32 a -> is_u32 b -> b <= a -> a -ᵤ b = a - b.
Proof. unfold is_u32. intros. apply wrap32_small. unfold is_u32. lia. Qed.

#[export] Hint Resolve wrap32_range wrap32_small : flash.

(** ** Lemmas on lists of bytes *)

(** A buffer filled with one byte value, such as a zeroed or an erased one. *)
Lemma Forall_replicate_byte n v : is_byte v -> Forall is_byte (replicate n v).
Proof. intros. by apply Forall_replicate. Qed.

#[export] Hint Resolve Forall_replicate_byte length_replicate : flash.
(** A byte literal is a byte. *)
#[export] Hint Extern 1 (is_byte _) => unfold is_byte; lia : flash.


(** ** Bitwise operations on bytes *)

(** The AND of two bytes is a byte. *)
Lemma land_byte x y : is_byte x -> is_byte y -> is_byte (Z.land x y).
Proof.
  unfold is_byte. intros Hx Hy.
  assert (Z.land x (Z.ones 8) = x) as Ex.
  { rewrite Z.land_ones by lia. apply Z.mod_small. simpl. lia. }
  rewrite <- Ex, <- Z.land_assoc, (Z.land_comm (Z.ones 8)), Z.land_assoc,
    Z.land_ones by lia.
  apply Z.mod_pos_bound. simpl. lia.
Qed.

(** Programming a byte into an erased cell stores the byte. *)
Lemma land_erased b : is_byte b -> Z.land ERASED b = b.
Proof.
  unfold is_byte, ERASED. intros Hb.
  change 255 with (Z.ones 8). rewrite Z.land_comm, Z.land_ones by lia.
  apply Z.mod_small. simpl. lia.
Qed.

#[export] Hint Resolve land_byte : flash.

(** Proves a decidable proposition about concrete values by evaluation. *)
Ltac by_decide := apply (bool_decide_unpack _); vm_compute; reflexivity.
