(* ===== verification/Driver.v ===== *)
(** * The W25QXX chip driver, as the interface the controller relies on

    [FlashPrg.c] calls five operations of the W25QXX driver ([w25qxx.h]):
    [W25QXX_Init], [W25QXX_Erase_Chip], [W25QXX_Erase_Sector],
    [W25QXX_Write_NoCheck] and [W25QXX_Read].  The driver's code is not
    under [src/], so this file models it from the spec: §6 lists the
    driver as a capability surface, and §5 says that each call returns
    only once the hardware operation has completed.

    [FlashChip] gives the operations, on an abstract device state [D].
    [FlashChipLaws] gives what the controller needs from them.  Each law
    is stated through [W25QXX_Read], over device states that satisfy the
    driver's invariant [chip_wf]
    (every cell holds a byte).  The concrete model in [NorFlash]
    discharges the laws.  [FlashMemory] adds the view of the device as
    a byte memory that the spec's abstract machine uses.  The controller ([FlashPrg]) and the session
    ([Session]) are proved against the laws only. *)

From S2P Require Import Prelude.

(** ** Geometry of the W25Q256 *)

(** The erase granularity: a 4 KiB sector. *)
Definition SECTOR_SIZE : Z := 4096.

(** The start of the sector that holds [off]. *)
Definition sector_base (off : Z) : Z := off - off mod SECTOR_SIZE.

(** ** The operations *)

Class FlashChip (D : Type) := {
  (** [void W25QXX_Init(void)] *)
  W25QXX_Init : D -> D;
  (** [void W25QXX_Erase_Chip(void)] *)
  W25QXX_Erase_Chip : D -> D;
  (** [void W25QXX_Erase_Sector(u32 Dst_Addr)]: erases the sector holding
      the byte offset [Dst_Addr]. *)
  W25QXX_Erase_Sector : Z -> D -> D;
  (** [void W25QXX_Write_NoCheck(u8* pBuffer, u32 WriteAddr, NumByteToWrite)]:
      programs the first [NumByteToWrite] bytes of [pBuffer] at [WriteAddr],
      without reading the cells first. *)
  W25QXX_Write_NoCheck : list Z -> Z -> Z -> D -> D;
  (** [void W25QXX_Read(u8* pBuffer, u32 ReadAddr, NumByteToRead)]: the
      bytes it stores into [pBuffer]. *)
  W25QXX_Read : D -> Z -> Z -> list Z;
  (** The driver's invariant on the device state. *)
  chip_wf : D -> Prop
}.

(** The [n] bytes at [a] read as erased. *)
Definition erased `{FlashChip D} (d : D) (a n : Z) : Prop :=
  W25QXX_Read d a n = replicate (Z.to_nat n) ERASED.

(** ** The laws *)

Class FlashChipLaws (D : Type) `{FlashChip D} := {
  (** The invariant is kept by every operation. *)
  init_wf d : chip_wf d -> chip_wf (W25QXX_Init d);
  erase_chip_wf d : chip_wf d -> chip_wf (W25QXX_Erase_Chip d);
  erase_sector_wf s d : chip_wf d -> chip_wf (W25QXX_Erase_Sector s d);
  write_wf buf a n d :
    Forall is_byte buf -> chip_wf d -> chip_wf (W25QXX_Write_NoCheck buf a n d);

  (** A read returns [n] bytes. *)
  read_length d a n : length (W25QXX_Read d a n) = Z.to_nat n;
  read_bytes d a n : chip_wf d -> Forall is_byte (W25QXX_Read d a n);

  (** [W25QXX_Init] only sets up the QSPI link: the contents stay. *)
  init_read d a n : W25QXX_Read (W25QXX_Init d) a n = W25QXX_Read d a n;

  (** Erasing the chip erases every byte. *)
  erase_chip_erased d a n : erased (W25QXX_Erase_Chip d) a n;

  (** Erasing a sector erases the bytes of that sector... *)
  erase_sector_erased s d a n :
    sector_base s <= a -> a + n <= sector_base s + SECTOR_SIZE ->
    erased (W25QXX_Erase_Sector s d) a n;
  (** ... and leaves the bytes outside it alone. *)
  erase_sector_read_other s d a n :
    a + n <= sector_base s \/ sector_base s + SECTOR_SIZE <= a ->
    W25QXX_Read (W25QXX_Erase_Sector s d) a n = W25QXX_Read d a n;

  (** Programming an erased range stores the data... *)
  write_read_erased buf a n d :
    0 <= n -> (Z.to_nat n <= length buf)%nat -> Forall is_byte buf ->
    erased d a n ->
    W25QXX_Read (W25QXX_Write_NoCheck buf a n d) a n = take (Z.to_nat n) buf;
  (** ... and leaves the bytes outside the range alone. *)
  write_read_other buf a n d b m :
    b + m <= a \/ a + n <= b ->
    W25QXX_Read (W25QXX_Write_NoCheck buf a n d) b m = W25QXX_Read d b m
}.

#[export] Hint Resolve init_wf erase_chip_wf erase_sector_wf write_wf read_bytes : flash.

(** ** The driver as a byte memory

    The spec (§3, §4.1) describes the device as a linear array of bytes
    by offset.  [FlashMemory] says that the driver implements one.  It
    gives the bytes [flash_mem d] a device state stands for.  A read is
    these bytes over its footprint, as a load of [n] bytes is in a
    memory model.  Each operation acts on them as NOR flash does:
    erasing sets bytes to 0xFF, and programming an erased byte stores
    the data byte.  [Refinement] proves the controller correct for any
    such driver. *)
Class FlashMemory (D : Type) `{FlashChip D} := {
  flash_mem : D -> Z -> Z;
  mem_read d a n :
    W25QXX_Read d a n = (fun k : nat => flash_mem d (a + Z.of_nat k)) <$> seq 0 (Z.to_nat n);
  mem_init d x : flash_mem (W25QXX_Init d) x = flash_mem d x;
  mem_erase_chip d x : flash_mem (W25QXX_Erase_Chip d) x = ERASED;
  mem_erase_sector s d x :
    flash_mem (W25QXX_Erase_Sector s d) x =
    if decide (sector_base s <= x < sector_base s + SECTOR_SIZE) then ERASED else flash_mem d x;
  mem_write_erased buf a n d x :
    Forall is_byte buf -> a <= x < a + n -> flash_mem d x = ERASED ->
    flash_mem (W25QXX_Write_NoCheck buf a n d) x = default ERASED (buf !! Z.to_nat (x - a));
  mem_write_other buf a n d x :
    ~ (a <= x < a + n) -> flash_mem (W25QXX_Write_NoCheck buf a n d) x = flash_mem d x
}.

Section DriverFacts.
Context `{FlashChipLaws D}.

(** Erasing the sector that starts at an aligned offset erases the
    whole sector. *)
Lemma erase_sector_aligned d off :
  off mod SECTOR_SIZE = 0 -> erased (W25QXX_Erase_Sector off d) off SECTOR_SIZE.
Proof. intros Hal. apply erase_sector_erased; unfold sector_base; lia. Qed.
End DriverFacts.
