(* ===== verification/NorFlash.v ===== *)
(** * A concrete NOR flash satisfying the driver laws

    The device is a function from a byte offset to the byte stored there.  The
    operations follow NOR flash physics, as the spec describes the chip:
    - erasing sets the cells to 0xFF;
    - programming ([W25QXX_Write_NoCheck]) can only clear bits, so the new
      cell is the AND of the old cell and the data byte;
    - [W25QXX_Init] does not touch the array.
    The file proves [FlashChipLaws] for this model.  The witnesses of the
    other files run the controller on it. *)

From S2P Require Import Prelude Driver.

Record nor_flash := NorFlash { cell : Z -> Z }.

(** ** The operations *)

Definition nor_read (d : nor_flash) (a n : Z) : list Z :=
  (fun k : nat => cell d (a + Z.of_nat k)) <$> seq 0 (Z.to_nat n).

Definition nor_erase_chip (d : nor_flash) : nor_flash :=
  NorFlash (fun _ => ERASED).

Definition in_sector (s a : Z) : Prop :=
  sector_base s <= a < sector_base s + SECTOR_SIZE.

Definition nor_erase_sector (s : Z) (d : nor_flash) : nor_flash :=
  NorFlash (fun a => if decide (in_sector s a) then ERASED else cell d a).

Definition nor_write (buf : list Z) (a n : Z) (d : nor_flash) : nor_flash :=
  NorFlash (fun b =>
    if decide (a <= b < a + n)
    then Z.land (cell d b) (default ERASED (buf !! Z.to_nat (b - a)))
    else cell d b).

Definition nor_wf (d : nor_flash) : Prop := forall a, is_byte (cell d a).

#[export] Instance nor_chip : FlashChip nor_flash := {
  W25QXX_Init := fun d => d;
  W25QXX_Erase_Chip := nor_erase_chip;
  W25QXX_Erase_Sector := nor_erase_sector;
  W25QXX_Write_NoCheck := nor_write;
  W25QXX_Read := nor_read;
  chip_wf := nor_wf
}.

(** ** Reads, byte by byte *)

Lemma nor_read_lookup d a n i :
  nor_read d a n !! i =
  if decide (i < Z.to_nat n)%nat then Some (cell d (a + Z.of_nat i)) else None.
Proof.
  unfold nor_read. rewrite list_lookup_fmap.
  case_decide; [by rewrite lookup_seq_lt | by rewrite lookup_seq_ge by lia].
Qed.

(** Two reads of [n] bytes agree when the cells they read agree. *)
Lemma nor_read_ext d1 d2 a b n :
  (forall k, 0 <= k < n -> cell d1 (a + k) = cell d2 (b + k)) ->
  nor_read d1 a n = nor_read d2 b n.
Proof.
  intros Hk. apply list_eq. intros i. rewrite !nor_read_lookup.
  case_decide; [| done]. f_equal. apply Hk. lia.
Qed.

(** A read of [n] cells that all hold [v]. *)
Lemma nor_read_const d a n v :
  (forall k, 0 <= k < n -> cell d (a + k) = v) ->
  nor_read d a n = replicate (Z.to_nat n) v.
Proof.
  intros Hk. apply list_eq. intros i. rewrite nor_read_lookup.
  case_decide.
  - rewrite lookup_replicate_2 by done. f_equal. apply Hk. lia.
  - rewrite (proj1 (lookup_replicate_None _ _ _)); [done | lia].
Qed.

(** ** The laws *)

Lemma nor_write_read_erased buf a n d :
  0 <= n -> (Z.to_nat n <= length buf)%nat -> Forall is_byte buf ->
  nor_read d a n = replicate (Z.to_nat n) ERASED ->
  nor_read (nor_write buf a n d) a n = take (Z.to_nat n) buf.
Proof.
  intros Hn Hlen Hbuf Her. apply list_eq. intros i.
  rewrite nor_read_lookup, lookup_take. case_decide as Hi; [| done].
  assert (cell d (a + Z.of_nat i) = ERASED) as Hc.
  { pose proof (f_equal (lookup i) Her) as E.
    rewrite nor_read_lookup, decide_True, lookup_replicate_2 in E by done.
    by injection E. }
  destruct (lookup_lt_is_Some_2 buf i) as [x Hx]; [lia |].
  simpl. rewrite decide_True by lia.
  replace (Z.to_nat (a + Z.of_nat i - a)) with i by lia.
  rewrite Hc, Hx. simpl. f_equal. apply land_erased.
  by apply (Forall_lookup_1 _ _ _ _ Hbuf Hx).
Qed.

(** Programming a range that is not erased: each byte becomes the AND of
    the old byte and the data byte. *)
Lemma nor_write_read_and buf a n d :
  (Z.to_nat n <= length buf)%nat ->
  nor_read (nor_write buf a n d) a n = zip_with Z.land (nor_read d a n) (take (Z.to_nat n) buf).
Proof.
  intros Hlen. apply list_eq. intros i.
  rewrite lookup_zip_with, !nor_read_lookup, lookup_take. case_decide as Hi; [| done].
  destruct (lookup_lt_is_Some_2 buf i) as [x Hx]; [lia |].
  simpl. rewrite decide_True by lia.
  replace (Z.to_nat (a + Z.of_nat i - a)) with i by lia. by rewrite Hx.
Qed.

#[export] Instance nor_chip_laws : FlashChipLaws nor_flash.
Proof.
  split.
  - done.
  - intros d _ a. simpl. unfold is_byte, ERASED. lia.
  - intros s d Hwf a. simpl. case_decide; [unfold is_byte, ERASED; lia | apply Hwf].
  - intros buf a n d Hbuf Hwf b. simpl. case_decide; [| apply Hwf].
    apply land_byte; [apply Hwf |].
    destruct (buf !! _) eqn:E; simpl; [by eapply Forall_lookup_1 | unfold is_byte, ERASED; lia].
  - intros d a n. simpl. unfold nor_read. by rewrite length_fmap, length_seq.
  - intros d a n Hwf. simpl. unfold nor_read. apply Forall_fmap, Forall_true. intros k. apply Hwf.
  - done.
  - intros d a n. by apply nor_read_const.
  - intros s d a n Hlo Hhi. apply nor_read_const. intros k Hk. simpl.
    rewrite decide_True; [done | unfold in_sector; lia].
  - intros s d a n Hout. apply nor_read_ext. intros k Hk. simpl.
    rewrite decide_False; [done | unfold in_sector; lia].
  - apply nor_write_read_erased.
  - intros buf a n d b m Hout. apply nor_read_ext. intros k Hk. simpl.
    rewrite decide_False; [done | lia].
Qed.

(** The NOR flash is a byte memory: its cells. *)
#[export] Instance nor_memory : FlashMemory nor_flash.
Proof.
  refine {| flash_mem := cell |}; try done.
  - intros buf a n d x Hbuf Hx Hd. simpl. rewrite decide_True, Hd by done.
    apply land_erased.
    destruct (buf !! _) eqn:E; simpl; [by eapply Forall_lookup_1 | unfold is_byte, ERASED; lia].
  - intros buf a n d x Hx. simpl. by rewrite decide_False.
Defined.
