(* ===== verification/FlashPrg.v ===== *)
(** * The flash programming algorithm, [src/STM32H743_W25Q256/FlashPrg.c]

    The record [FlashPrg] is the algorithm's memory: the globals
    [aux_buf] (line 47) and [base_adr] (line 48), plus the state of the
    chip behind the driver.  Each entry point is a function from that
    state to the new state and the C return value.  The entry points that
    can reach undefined behaviour return a [result] instead.
    - [Verify] overflows [aux_buf] when [sz > PAGE_SIZE].
    - [ProgramPage] and [Verify] read past the end of the host buffer
      when it is shorter than what they read.
    The file is written against any driver that satisfies
    [FlashChipLaws]. *)

From S2P Require Import Prelude Driver NorFlash.

(** [#define PAGE_SIZE 4096] *)
Definition PAGE_SIZE : Z := 4096.

(** How the [for] loop of [Verify] exits. *)
Inductive loop_exit :=
  | LoopDone             (* [i] reached [PAGE_SIZE] *)
  | LoopReturn (r : Z).  (* [return (adr+i);] *)

#[export] Instance loop_exit_eq_dec : EqDecision loop_exit.
Proof. solve_decision. Defined.

(** [for (i = 0; i < PAGE_SIZE; i++) if (aux_buf[i] != buf[i]) return (adr+i);]
    from iteration [i], with [n] iterations left. *)
Fixpoint verify_loop (adr : Z) (aux buf : list Z) (i n : nat) : result loop_exit :=
  match n with
  | O => Ok LoopDone
  | S n' =>
      match aux !! i, buf !! i with
      | Some a, Some b =>
          if decide (a = b) then verify_loop adr aux buf (S i) n'
          else Ok (LoopReturn (adr +ᵤ Z.of_nat i))
      | _, _ => Fault OutOfBoundsRead
      end
  end.

(** The first index below [n] where two buffers differ: the reference
    definition the loop is proved equal to. *)
Definition first_mismatch (aux buf : list Z) (n : nat) : option nat :=
  fst <$> list_find (fun p : Z * Z => p.1 ≠ p.2) (zip (take n aux) (take n buf)).

(** Two buffers agree on their first [n] bytes. *)
Definition agree_below (l1 l2 : list Z) (n : nat) : Prop :=
  forall j, (j < n)%nat -> l1 !! j = l2 !! j.

Section FlashPrg.
Context `{FlashChipLaws D}.

(** The algorithm's RAM and the chip it drives. *)
Record FlashPrg := mkFlashPrg {
  aux_buf : list Z;   (* uint8_t aux_buf[PAGE_SIZE]; *)
  base_adr : Z;       (* uint32_t base_adr; *)
  chip : D
}.

(** The expression [adr-base_adr], in [unsigned long]. *)
Definition dev_offset (s : FlashPrg) (adr : Z) : Z := adr -ᵤ base_adr s.

Definition with_chip (s : FlashPrg) (d : D) : FlashPrg :=
  mkFlashPrg (aux_buf s) (base_adr s) d.

(** [int Init (unsigned long adr, unsigned long clk, unsigned long fnc)].
    The clock, delay, UART and LED bring-up does not touch the state
    modelled here; [W25QXX_Init] is the driver's. *)
Definition Init (adr clk fnc : Z) (s : FlashPrg) : FlashPrg * Z :=
  let d := W25QXX_Init (chip s) in
  (mkFlashPrg (aux_buf s) adr d, 0).

(** [int UnInit (unsigned long fnc)] *)
Definition UnInit (fnc : Z) (s : FlashPrg) : FlashPrg * Z := (s, 0).

(** [int EraseChip (void)] *)
Definition EraseChip (s : FlashPrg) : FlashPrg * Z :=
  (with_chip s (W25QXX_Erase_Chip (chip s)), 0).

(** [int EraseSector (unsigned long adr)] *)
Definition EraseSector (adr : Z) (s : FlashPrg) : FlashPrg * Z :=
  (with_chip s (W25QXX_Erase_Sector (dev_offset s adr) (chip s)), 0).

(** [int BlankCheck (unsigned long adr, unsigned long sz, unsigned char pat)] *)
Definition BlankCheck (adr sz pat : Z) (s : FlashPrg) : FlashPrg * Z := (s, 1).

(** [int ProgramPage (unsigned long adr, unsigned long sz, unsigned char *buf)].
    The driver reads [sz] bytes from [buf]. *)
Definition ProgramPage (adr sz : Z) (buf : list Z) (s : FlashPrg) : result (FlashPrg * Z) :=
  if decide (Z.to_nat sz <= length buf)%nat then
    Ok (with_chip s (W25QXX_Write_NoCheck buf (dev_offset s adr) sz (chip s)), 0)
  else Fault OutOfBoundsRead.

(** [W25QXX_Read(aux_buf, adr-base_adr, sz)]: the [sz] bytes read land at
    the start of [aux_buf]; the rest keeps what earlier calls left. *)
Definition after_read (s : FlashPrg) (adr sz : Z) : FlashPrg :=
  mkFlashPrg (W25QXX_Read (chip s) (dev_offset s adr) sz ++ drop (Z.to_nat sz) (aux_buf s))
             (base_adr s) (chip s).

(** The read writes past [aux_buf[PAGE_SIZE-1]] when [sz > PAGE_SIZE]. *)
Definition read_into_aux (s : FlashPrg) (adr sz : Z) : result FlashPrg :=
  if decide (sz <= PAGE_SIZE) then Ok (after_read s adr sz) else Fault BufferOverflow.

(** [unsigned long Verify (unsigned long adr, unsigned long sz, unsigned char *buf)] *)
Definition Verify (adr sz : Z) (buf : list Z) (s : FlashPrg) : result (FlashPrg * Z) :=
  s' ← read_into_aux s adr sz;
  e ← verify_loop adr (aux_buf s') buf 0 (Z.to_nat PAGE_SIZE);
  Ok (s', match e with LoopDone => adr +ᵤ sz | LoopReturn r => r end).

(** The abstract check of the spec (§4, [verify]): the address of the
    first byte of [mem] that differs from [data] within [sz] bytes, or
    [adr + sz] when there is none. *)
Definition verify_spec (mem data : list Z) (adr sz : Z) : Z :=
  match first_mismatch mem data (Z.to_nat sz) with
  | Some k => adr +ᵤ Z.of_nat k
  | None => adr +ᵤ sz
  end.

(** The invariant of the algorithm's state. *)
Definition flashprg_inv (s : FlashPrg) : Prop :=
  length (aux_buf s) = Z.to_nat PAGE_SIZE /\ Forall is_byte (aux_buf s) /\
  is_u32 (base_adr s) /\ chip_wf (chip s).
End FlashPrg.

Arguments FlashPrg D : clear implicits.

(** ** The scan loop and its reference *)

Section FirstMismatch.

Lemma first_mismatch_None (l1 l2 : list Z) n :
  (n <= length l1)%nat -> (n <= length l2)%nat ->
  first_mismatch l1 l2 n = None <-> agree_below l1 l2 n.
Proof.
  intros H1 H2. unfold first_mismatch, agree_below.
  rewrite fmap_None, list_find_None, Forall_lookup. split.
  - intros Hf j Hj.
    destruct (lookup_lt_is_Some_2 l1 j) as [a Ha]; [lia |].
    destruct (lookup_lt_is_Some_2 l2 j) as [b Hb]; [lia |].
    rewrite Ha, Hb. f_equal. destruct (decide (a = b)) as [| Hab]; [done |].
    destruct (Hf j (a, b)); [| done].
    apply lookup_zip_Some. by rewrite !lookup_take_lt.
  - intros Hag j [a b] Hl Hab. simpl in Hab.
    apply lookup_zip_Some in Hl as [Ha Hb].
    apply lookup_take_Some in Ha as [Ha Hj], Hb as [Hb _].
    apply Hab. specialize (Hag j Hj). congruence.
Qed.

Lemma first_mismatch_Some (l1 l2 : list Z) n k :
  (n <= length l1)%nat -> (n <= length l2)%nat ->
  first_mismatch l1 l2 n = Some k <->
  (k < n)%nat /\ l1 !! k ≠ l2 !! k /\ agree_below l1 l2 k.
Proof.
  intros H1 H2. unfold first_mismatch, agree_below. rewrite fmap_Some. split.
  - intros [[k' [a b]] [Hf ->]]. apply list_find_Some in Hf as (Hl & Hab & Hmin).
    apply lookup_zip_Some in Hl as [Ha Hb]. simpl in *.
    apply lookup_take_Some in Ha as [Ha Hk], Hb as [Hb _].
    split; [done | split; [congruence |]].
    intros j Hj.
    destruct (lookup_lt_is_Some_2 l1 j) as [x Hx]; [lia |].
    destruct (lookup_lt_is_Some_2 l2 j) as [y Hy]; [lia |].
    rewrite Hx, Hy. f_equal. destruct (decide (x = y)) as [| Hxy]; [done |].
    destruct (Hmin j (x, y)); [| done | done].
    apply lookup_zip_Some. by rewrite !lookup_take_lt by lia.
  - intros (Hk & Hne & Hag).
    destruct (lookup_lt_is_Some_2 l1 k) as [a Ha]; [lia |].
    destruct (lookup_lt_is_Some_2 l2 k) as [b Hb]; [lia |].
    exists (k, (a, b)). split; [| done]. apply list_find_Some.
    split; [apply lookup_zip_Some; by rewrite !lookup_take_lt |].
    split; [simpl; congruence |].
    intros j [x y] Hl Hj Hxy. simpl in Hxy.
    apply lookup_zip_Some in Hl as [Hx Hy].
    rewrite lookup_take_lt in Hx, Hy by lia.
    apply Hxy. specialize (Hag j Hj). congruence.
Qed.
End FirstMismatch.

Section VerifyLoop.
Variables (adr : Z) (aux buf : list Z).

Lemma verify_loop_done i n :
  (i + n <= length aux)%nat -> (i + n <= length buf)%nat ->
  (forall j, (i <= j < i + n)%nat -> aux !! j = buf !! j) ->
  verify_loop adr aux buf i n = Ok LoopDone.
Proof.
  revert i. induction n as [|n IH]; intros i H1 H2 Hag; [done |].
  destruct (lookup_lt_is_Some_2 aux i) as [a Ha]; [lia |].
  destruct (lookup_lt_is_Some_2 buf i) as [b Hb]; [lia |].
  simpl. rewrite Ha, Hb, decide_True.
  - apply IH; [lia | lia |]. intros j Hj. apply Hag. lia.
  - specialize (Hag i ltac:(lia)). congruence.
Qed.

Lemma verify_loop_return i n k :
  (i + n <= length aux)%nat -> (i + n <= length buf)%nat ->
  (i <= k < i + n)%nat -> aux !! k ≠ buf !! k ->
  (forall j, (i <= j < k)%nat -> aux !! j = buf !! j) ->
  verify_loop adr aux buf i n = Ok (LoopReturn (adr +ᵤ Z.of_nat k)).
Proof.
  revert i. induction n as [|n IH]; intros i H1 H2 Hk Hne Hag; [lia |].
  destruct (lookup_lt_is_Some_2 aux i) as [a Ha]; [lia |].
  destruct (lookup_lt_is_Some_2 buf i) as [b Hb]; [lia |].
  simpl. rewrite Ha, Hb. destruct (decide (k = i)) as [-> | Hki].
  - rewrite decide_False by congruence. done.
  - rewrite decide_True.
    + apply IH; [lia | lia | lia | done |]. intros j Hj. apply Hag. lia.
    + specialize (Hag i ltac:(lia)). congruence.
Qed.

(** C25: The compare loop stays within the page buffer's capacity (spec
    §8, boundary): from index [i], with [n] iterations left, it reads the
    host buffer only below [i + n], so truncating the buffer there
    changes neither its result nor a fault.  [Verify] runs it from 0 with
    [PAGE_SIZE] iterations: whatever [sz], it reads at most [PAGE_SIZE]
    bytes of the host buffer. *)
Theorem verify_loop_take i n :
  verify_loop adr aux buf i n = verify_loop adr aux (take (i + n) buf) i n.
Proof.
  revert i. induction n as [| n IH]; intros i; [done |].
  cbn [verify_loop]. rewrite lookup_take_lt by lia.
  destruct (aux !! i), (buf !! i); try done. case_decide; [| done].
  rewrite Nat.add_succ_r. apply IH.
Qed.
End VerifyLoop.

(** The loop's result, by [first_mismatch]. *)
Lemma verify_loop_eq adr aux buf n :
  (n <= length aux)%nat -> (n <= length buf)%nat ->
  verify_loop adr aux buf 0 n =
  Ok (match first_mismatch aux buf n with
      | Some k => LoopReturn (adr +ᵤ Z.of_nat k)
      | None => LoopDone
      end).
Proof.
  intros H1 H2. destruct (first_mismatch aux buf n) as [k|] eqn:E.
  - apply first_mismatch_Some in E as (Hk & Hne & Hag); [| done | done].
    apply verify_loop_return; [lia | lia | lia | done |].
    intros j Hj. apply Hag. lia.
  - apply first_mismatch_None in E; [| done | done].
    apply verify_loop_done; [lia | lia |]. intros j Hj. apply E. lia.
Qed.

(** C2: The loop computes the reference: it returns [adr + k] for the first
    index [k] below [n] where the buffers differ, and exits normally when
    there is none. *)
Theorem verify_loop_first_mismatch adr aux buf n :
  (n <= length aux)%nat -> (n <= length buf)%nat ->
  verify_loop adr aux buf 0 n =
  Ok (match first_mismatch aux buf n with
      | Some k => LoopReturn (adr +ᵤ Z.of_nat k)
      | None => LoopDone
      end).
Proof. apply verify_loop_eq. Qed.

(** ** Properties of [Verify] *)

Section VerifyProps.
Context `{FlashChipLaws D}.
Implicit Types s : FlashPrg D.

Lemma after_read_length s adr sz :
  flashprg_inv s -> sz <= PAGE_SIZE ->
  length (aux_buf (after_read s adr sz)) = Z.to_nat PAGE_SIZE.
Proof.
  intros (Hl & _). simpl. rewrite length_app, read_length, length_drop, Hl.
  unfold PAGE_SIZE in *. lia.
Qed.

Lemma after_read_lookup_lt s adr sz j :
  (j < Z.to_nat sz)%nat ->
  aux_buf (after_read s adr sz) !! j = W25QXX_Read (chip s) (dev_offset s adr) sz !! j.
Proof. intros Hj. apply lookup_app_l. by rewrite read_length. Qed.

Lemma after_read_lookup_ge s adr sz j :
  (Z.to_nat sz <= j)%nat -> aux_buf (after_read s adr sz) !! j = aux_buf s !! j.
Proof.
  intros Hj. simpl. rewrite lookup_app_r, lookup_drop by (rewrite read_length; lia).
  rewrite read_length. f_equal. lia.
Qed.

(** A first mismatch inside the [sz] bytes read is the first mismatch
    of the whole window. *)
Lemma after_read_first_mismatch s adr sz buf k :
  flashprg_inv s -> 0 <= sz <= PAGE_SIZE -> (Z.to_nat PAGE_SIZE <= length buf)%nat ->
  first_mismatch (W25QXX_Read (chip s) (dev_offset s adr) sz) buf (Z.to_nat sz) = Some k ->
  first_mismatch (aux_buf (after_read s adr sz)) buf (Z.to_nat PAGE_SIZE) = Some k.
Proof.
  intros Hinv Hsz Hbuf E.
  apply first_mismatch_Some in E as (Hk & Hne & Hag); [| rewrite read_length; lia | unfold PAGE_SIZE in *; lia].
  apply first_mismatch_Some; [rewrite after_read_length by (done || lia); lia | lia |].
  split; [unfold PAGE_SIZE in *; lia |].
  rewrite after_read_lookup_lt by lia. split; [done |].
  intros j Hj. rewrite after_read_lookup_lt by lia. by apply Hag.
Qed.

(** C6: [Verify] with [sz > PAGE_SIZE] overflows [aux_buf]. *)
Theorem Verify_overflow s adr sz buf :
  PAGE_SIZE < sz -> Verify adr sz buf s = Fault BufferOverflow.
Proof. intros Hsz. unfold Verify, read_into_aux. by rewrite decide_False by lia. Qed.

(** [Verify]'s result when it does not fault. *)
Lemma Verify_eq s adr sz buf :
  flashprg_inv s -> sz <= PAGE_SIZE -> (Z.to_nat PAGE_SIZE <= length buf)%nat ->
  Verify adr sz buf s =
  Ok (after_read s adr sz,
      match first_mismatch (aux_buf (after_read s adr sz)) buf (Z.to_nat PAGE_SIZE) with
      | Some k => adr +ᵤ Z.of_nat k
      | None => adr +ᵤ sz
      end).
Proof.
  intros Hinv Hsz Hbuf. unfold Verify, read_into_aux. rewrite decide_True by done.
  cbn [mbind result_bind].
  rewrite verify_loop_eq by (rewrite ?after_read_length by done; lia).
  by destruct first_mismatch.
Qed.

(** C1: [Verify], on every branch that does not fault: [aux_buf] receives
    the [sz] bytes read, and the result is [adr + k] for the first
    mismatch [k] in the whole 4096-byte window, or [adr + sz]. *)
Theorem Verify_result s adr sz buf :
  flashprg_inv s -> sz <= PAGE_SIZE -> (Z.to_nat PAGE_SIZE <= length buf)%nat ->
  Verify adr sz buf s =
  Ok (after_read s adr sz,
      match first_mismatch (aux_buf (after_read s adr sz)) buf (Z.to_nat PAGE_SIZE) with
      | Some k => adr +ᵤ Z.of_nat k
      | None => adr +ᵤ sz
      end).
Proof. apply Verify_eq. Qed.

(** C4: A mismatch inside the [sz] bytes is always reported exactly: [Verify]
    returns the address of the first differing byte. *)
Theorem Verify_reports_first_mismatch s adr sz buf k :
  flashprg_inv s -> 0 <= sz <= PAGE_SIZE -> (Z.to_nat PAGE_SIZE <= length buf)%nat ->
  first_mismatch (W25QXX_Read (chip s) (dev_offset s adr) sz) buf (Z.to_nat sz) = Some k ->
  Verify adr sz buf s = Ok (after_read s adr sz, adr +ᵤ Z.of_nat k).
Proof.
  intros Hinv Hsz Hbuf E. rewrite Verify_eq by (done || lia).
  by rewrite (after_read_first_mismatch s adr sz buf k).
Qed.

(** [Verify] computes [verify_spec] when the stale tail agrees. *)
Lemma Verify_spec_eq s adr sz buf :
  flashprg_inv s -> 0 <= sz <= PAGE_SIZE -> (Z.to_nat PAGE_SIZE <= length buf)%nat ->
  (forall j, (Z.to_nat sz <= j < Z.to_nat PAGE_SIZE)%nat -> aux_buf s !! j = buf !! j) ->
  Verify adr sz buf s =
  Ok (after_read s adr sz, verify_spec (W25QXX_Read (chip s) (dev_offset s adr) sz) buf adr sz).
Proof.
  intros Hinv Hsz Hbuf Htail. rewrite Verify_eq by (done || lia).
  unfold verify_spec. destruct (first_mismatch _ buf (Z.to_nat sz)) as [k|] eqn:E.
  - by rewrite (after_read_first_mismatch s adr sz buf k).
  - apply first_mismatch_None in E; [| rewrite read_length; lia | unfold PAGE_SIZE in *; lia].
    assert (first_mismatch (aux_buf (after_read s adr sz)) buf (Z.to_nat PAGE_SIZE) = None) as ->;
      [| done].
    apply first_mismatch_None; [rewrite after_read_length by (done || lia); lia | lia |].
    intros j Hj. destruct (decide (j < Z.to_nat sz)%nat).
    + rewrite after_read_lookup_lt by done. by apply E.
    + rewrite after_read_lookup_ge by lia. apply Htail. lia.
Qed.

(** C3: Refinement: when the bytes of [aux_buf] past [sz] agree with the host
    buffer (in particular when [sz = PAGE_SIZE]), [Verify] computes the
    spec's check on the [sz] bytes read. *)
Theorem Verify_refines_verify_spec s adr sz buf :
  flashprg_inv s -> 0 <= sz <= PAGE_SIZE -> (Z.to_nat PAGE_SIZE <= length buf)%nat ->
  (forall j, (Z.to_nat sz <= j < Z.to_nat PAGE_SIZE)%nat -> aux_buf s !! j = buf !! j) ->
  Verify adr sz buf s =
  Ok (after_read s adr sz, verify_spec (W25QXX_Read (chip s) (dev_offset s adr) sz) buf adr sz).
Proof. apply Verify_spec_eq. Qed.

(** C5: The divergence from the spec: when the device holds exactly the [sz]
    bytes of [buf], but a stale byte of [aux_buf] past [sz] differs from
    the host buffer, [Verify] reports a failure at that stale byte. *)
Theorem Verify_reports_stale_tail s adr sz buf k :
  flashprg_inv s -> 0 <= sz <= PAGE_SIZE -> (Z.to_nat PAGE_SIZE <= length buf)%nat ->
  agree_below (W25QXX_Read (chip s) (dev_offset s adr) sz) buf (Z.to_nat sz) ->
  (Z.to_nat sz <= k < Z.to_nat PAGE_SIZE)%nat -> aux_buf s !! k ≠ buf !! k ->
  (forall j, (Z.to_nat sz <= j < k)%nat -> aux_buf s !! j = buf !! j) ->
  Verify adr sz buf s = Ok (after_read s adr sz, adr +ᵤ Z.of_nat k).
Proof.
  intros Hinv Hsz Hbuf Hread Hk Hne Htail. rewrite Verify_eq by (done || lia).
  assert (first_mismatch (aux_buf (after_read s adr sz)) buf (Z.to_nat PAGE_SIZE) = Some k) as ->;
    [| done].
  apply first_mismatch_Some; [rewrite after_read_length by (done || lia); lia | lia |].
  rewrite after_read_lookup_ge by lia. split; [lia | split; [done |]].
  intros j Hj. destruct (decide (j < Z.to_nat sz)%nat).
  + rewrite after_read_lookup_lt by done. by apply Hread.
  + rewrite after_read_lookup_ge by lia. apply Htail. lia.
Qed.

(** Reading no bytes leaves the state as it was. *)
Lemma after_read_0 s adr : after_read s adr 0 = s.
Proof.
  destruct s as [aux b d]. unfold after_read. cbn [aux_buf base_adr chip drop Z.to_nat].
  by rewrite (nil_length_inv (W25QXX_Read _ _ _)) by (by rewrite read_length).
Qed.

(** C29: Boundary: an empty [Verify] ([sz = 0]) reads nothing and leaves
    the state as it was, yet it still compares the whole stale
    [aux_buf] with the host buffer.  It reports [adr + k] for the first
    stale byte [k] that differs, where the spec's verify of no bytes
    returns [adr]. *)
Theorem Verify_empty s adr buf :
  flashprg_inv s -> (Z.to_nat PAGE_SIZE <= length buf)%nat ->
  Verify adr 0 buf s =
  Ok (s, match first_mismatch (aux_buf s) buf (Z.to_nat PAGE_SIZE) with
         | Some k => adr +ᵤ Z.of_nat k
         | None => adr +ᵤ 0
         end).
Proof.
  intros Hinv Hbuf. rewrite Verify_eq by (done || unfold PAGE_SIZE; lia).
  by rewrite after_read_0.
Qed.
End VerifyProps.

(** ** The other entry points *)

(** Splits [flashprg_inv] into its four conjuncts. *)
Ltac inv_split := split; [| split; [| split]].

Section Ops.
Context `{FlashChipLaws D}.
Implicit Types s : FlashPrg D.

Lemma Init_inv s adr clk fnc :
  is_u32 adr -> flashprg_inv s -> flashprg_inv (Init adr clk fnc s).1.
Proof.
  intros Ha (Hl & Hb & Hu & Hc).
  inv_split; cbn [Init fst aux_buf base_adr chip]; eauto with flash.
Qed.

Lemma EraseChip_inv s : flashprg_inv s -> flashprg_inv (EraseChip s).1.
Proof. intros (Hl & Hb & Hu & Hc). inv_split; simpl; eauto with flash. Qed.

Lemma EraseSector_inv s adr : flashprg_inv s -> flashprg_inv (EraseSector adr s).1.
Proof. intros (Hl & Hb & Hu & Hc). inv_split; simpl; eauto with flash. Qed.

(** What [ProgramPage] does on an erased range. *)
Lemma ProgramPage_eq s adr sz buf :
  0 <= sz -> (Z.to_nat sz <= length buf)%nat -> Forall is_byte buf ->
  erased (chip s) (dev_offset s adr) sz ->
  exists s', ProgramPage adr sz buf s = Ok (s', 0) /\
    aux_buf s' = aux_buf s /\ base_adr s' = base_adr s /\
    W25QXX_Read (chip s') (dev_offset s adr) sz = take (Z.to_nat sz) buf /\
    (forall b m, b + m <= dev_offset s adr \/ dev_offset s adr + sz <= b ->
                 W25QXX_Read (chip s') b m = W25QXX_Read (chip s) b m).
Proof.
  intros Hsz Hlen Hbuf Her. unfold ProgramPage. rewrite decide_True by done.
  eexists. split_and!; [done | done | done | by apply write_read_erased |].
  intros. by apply write_read_other.
Qed.

(** C12: [ProgramPage adr sz buf] on an erased range stores the [sz] bytes of
    [buf] at the device offset [adr - base_adr], leaves the other bytes
    alone, and returns 0. *)
Theorem ProgramPage_writes s adr sz buf :
  0 <= sz -> (Z.to_nat sz <= length buf)%nat -> Forall is_byte buf ->
  erased (chip s) (dev_offset s adr) sz ->
  exists s', ProgramPage adr sz buf s = Ok (s', 0) /\
    aux_buf s' = aux_buf s /\ base_adr s' = base_adr s /\
    W25QXX_Read (chip s') (dev_offset s adr) sz = take (Z.to_nat sz) buf /\
    (forall b m, b + m <= dev_offset s adr \/ dev_offset s adr + sz <= b ->
                 W25QXX_Read (chip s') b m = W25QXX_Read (chip s) b m).
Proof. apply ProgramPage_eq. Qed.

(** C13: [ProgramPage] with a host buffer shorter than [sz] reads past its end. *)
Theorem ProgramPage_short_buffer s adr sz buf :
  (length buf < Z.to_nat sz)%nat -> ProgramPage adr sz buf s = Fault OutOfBoundsRead.
Proof. intros Hlen. unfold ProgramPage. by rewrite decide_False by lia. Qed.

(** What a successful [ProgramPage] changes. *)
Lemma ProgramPage_Ok s adr sz buf s' r :
  ProgramPage adr sz buf s = Ok (s', r) ->
  s' = with_chip s (W25QXX_Write_NoCheck buf (dev_offset s adr) sz (chip s)) /\ r = 0.
Proof. unfold ProgramPage. case_decide; intros; by simplify_eq. Qed.

(** What a successful [Verify] changes. *)
Lemma Verify_Ok s adr sz buf s' r :
  Verify adr sz buf s = Ok (s', r) -> s' = after_read s adr sz /\ sz <= PAGE_SIZE.
Proof.
  unfold Verify, read_into_aux. case_decide; [| done]. cbn [mbind result_bind].
  destruct (verify_loop _ _ _ _ _); cbn [mbind result_bind]; intros; by simplify_eq.
Qed.

Lemma ProgramPage_inv s adr sz buf s' r :
  Forall is_byte buf -> flashprg_inv s -> ProgramPage adr sz buf s = Ok (s', r) ->
  flashprg_inv s'.
Proof.
  intros Hbuf (Hl & Hb & Hu & Hc) [-> _]%ProgramPage_Ok.
  inv_split; simpl; eauto with flash.
Qed.

Lemma Verify_inv s adr sz buf s' r :
  flashprg_inv s -> Verify adr sz buf s = Ok (s', r) -> flashprg_inv s'.
Proof.
  intros Hinv [-> Hsz]%Verify_Ok.
  pose proof (after_read_length s adr sz Hinv Hsz).
  destruct Hinv as (Hl & Hb & Hu & Hc).
  inv_split; [done | | done | done].
  apply Forall_app. split; [by apply read_bytes | by apply Forall_drop].
Qed.

(** C11: [EraseSector adr] erases the sector holding the device offset
    [adr - base_adr] and nothing else, and returns 0. *)
Theorem EraseSector_erases s adr :
  let off := dev_offset s adr in
  let '(s', ret) := EraseSector adr s in
  ret = 0 /\ aux_buf s' = aux_buf s /\ base_adr s' = base_adr s /\
  (forall a n, sector_base off <= a -> a + n <= sector_base off + SECTOR_SIZE ->
               erased (chip s') a n) /\
  (forall a n, a + n <= sector_base off \/ sector_base off + SECTOR_SIZE <= a ->
               W25QXX_Read (chip s') a n = W25QXX_Read (chip s) a n).
Proof.
  simpl. split_and!; try done.
  - intros. by apply erase_sector_erased.
  - intros. by apply erase_sector_read_other.
Qed.

(** Programming then verifying a full page. *)
Lemma ProgramPage_Verify_eq s adr buf :
  flashprg_inv s -> (Z.to_nat PAGE_SIZE <= length buf)%nat -> Forall is_byte buf ->
  erased (chip s) (dev_offset s adr) PAGE_SIZE ->
  exists s1 s2, ProgramPage adr PAGE_SIZE buf s = Ok (s1, 0) /\
                Verify adr PAGE_SIZE buf s1 = Ok (s2, adr +ᵤ PAGE_SIZE).
Proof.
  intros Hinv Hlen Hbuf Her.
  destruct (ProgramPage_eq s adr PAGE_SIZE buf) as (s1 & Hp & Haux & Hbase & Hread & _);
    [done | done | done | done |].
  exists s1. eexists. split; [done |].
  rewrite Verify_spec_eq; [| by eapply ProgramPage_inv | done | done | lia].
  unfold dev_offset in *. rewrite Hbase, Hread. unfold verify_spec.
  assert (first_mismatch (take (Z.to_nat PAGE_SIZE) buf) buf (Z.to_nat PAGE_SIZE) = None) as ->;
    [| done].
  apply first_mismatch_None; [rewrite length_take; lia | done |].
  intros j Hj. by rewrite lookup_take_lt.
Qed.

(** C7: Round trip: programming a full page into an erased range, then
    verifying it against the same buffer, reports success. *)
Theorem ProgramPage_Verify_roundtrip s adr buf :
  flashprg_inv s -> (Z.to_nat PAGE_SIZE <= length buf)%nat -> Forall is_byte buf ->
  erased (chip s) (dev_offset s adr) PAGE_SIZE ->
  exists s1 s2, ProgramPage adr PAGE_SIZE buf s = Ok (s1, 0) /\
                Verify adr PAGE_SIZE buf s1 = Ok (s2, adr +ᵤ PAGE_SIZE).
Proof. apply ProgramPage_Verify_eq. Qed.

(** C14: The offset handed to the driver, in 32-bit arithmetic: [adr - base]
    when [adr >= base], and wrapped round to [adr - base + 2^32] below
    the base. *)
Theorem dev_offset_value s adr :
  is_u32 adr -> is_u32 (base_adr s) ->
  dev_offset s adr =
  if decide (base_adr s <= adr) then adr - base_adr s else adr - base_adr s + 2 ^ 32.
Proof.
  intros Ha Hb. unfold dev_offset. case_decide.
  - by apply wrap32_sub_nowrap.
  - unfold is_u32, wrap32, U32_MOD in *.
    symmetry. apply (Z.mod_unique _ _ (-1)); lia.
Qed.
(** C15: Two sessions initialised with different base addresses hand the
    driver different offsets for the same host address. *)
Theorem session_offsets_differ s1 s2 b1 b2 clk1 clk2 fnc1 fnc2 adr :
  is_u32 b1 -> is_u32 b2 -> b1 ≠ b2 ->
  dev_offset (Init b1 clk1 fnc1 s1).1 adr ≠ dev_offset (Init b2 clk2 fnc2 s2).1 adr.
Proof. intros Hb1 Hb2 Hne E. apply Hne. by apply (wrap32_sub_inj_r adr). Qed.

(** C17: [EraseChip] erases the whole chip, keeps the globals and returns 0. *)
Theorem EraseChip_erases s :
  let '(s', ret) := EraseChip s in
  ret = 0 /\ aux_buf s' = aux_buf s /\ base_adr s' = base_adr s /\
  (forall a n, erased (chip s') a n).
Proof. simpl. split_and!; try done. intros. apply erase_chip_erased. Qed.

(** C18: [Init adr] sets [base_adr] to [adr] and returns 0.  It keeps the
    flash contents, and it keeps [aux_buf]: the bytes of earlier verifies
    survive a new [Init]. *)
Theorem Init_sets_base s adr clk fnc :
  let '(s', ret) := Init adr clk fnc s in
  ret = 0 /\ base_adr s' = adr /\ aux_buf s' = aux_buf s /\
  (forall a n, W25QXX_Read (chip s') a n = W25QXX_Read (chip s) a n).
Proof. simpl. split_and!; try done. intros. apply init_read. Qed.

(** C19: The address [Verify] returns lies within one page of [adr]: it is
    [adr + j] for some [j <= PAGE_SIZE], taken modulo 2^32, so it wraps
    round past the top of the address space. *)
Theorem Verify_result_window s adr sz buf s' r :
  flashprg_inv s -> 0 <= sz -> (Z.to_nat PAGE_SIZE <= length buf)%nat ->
  Verify adr sz buf s = Ok (s', r) ->
  is_u32 r /\ exists j, 0 <= j <= PAGE_SIZE /\ r = adr +ᵤ j.
Proof.
  intros Hinv Hsz Hbuf Hv. pose proof Hv as [_ Hle]%Verify_Ok.
  pose proof (after_read_length s adr sz Hinv Hle) as Hlen.
  rewrite Verify_eq in Hv by done. injection Hv as _ <-.
  destruct first_mismatch as [k|] eqn:E.
  - apply first_mismatch_Some in E as [Hk _]; [| cbn [after_read aux_buf] in Hlen; lia | lia].
    split; [apply wrap32_range |]. exists (Z.of_nat k). split; [unfold PAGE_SIZE in *; lia | done].
  - split; [apply wrap32_range |]. by exists sz.
Qed.

End Ops.

(** ** Concrete runs on the NOR flash model *)

(** The QSPI flash is memory-mapped at [0x90000000] on the STM32H743. *)
Definition ex_base : Z := 2415919104.
(** The second 4 KiB sector of the chip. *)
Definition ex_adr : Z := ex_base + 4096.
Definition blank_chip : nor_flash := NorFlash (fun _ => ERASED).
(** A page of data: byte [k] holds [k mod 256]. *)
Definition ex_page : list Z := (fun k : nat => Z.of_nat k mod 256) <$> seq 0 4096.
(** The algorithm after [Init ex_base], with zeroed RAM and a blank chip. *)
Definition ex_state : FlashPrg nor_flash := mkFlashPrg (replicate 4096 0) ex_base blank_chip.

Lemma blank_chip_wf : chip_wf blank_chip.
Proof. intros a. simpl. unfold is_byte, ERASED. lia. Qed.

Lemma ex_state_inv : flashprg_inv ex_state.
Proof.
  split; [reflexivity |]. split; [apply Forall_replicate_byte; unfold is_byte; lia |].
  split; [by_decide | apply blank_chip_wf].
Qed.

Lemma verify_loop_first_mismatch_witness :
  (3 <= length [1; 2; 3])%nat /\ (3 <= length [1; 5; 3])%nat /\
  verify_loop 100 [1; 2; 3] [1; 5; 3] 0 3 =
  Ok (match first_mismatch [1; 2; 3] [1; 5; 3] 3 with
      | Some k => LoopReturn (100 +ᵤ Z.of_nat k) | None => LoopDone end).
Proof.
  split; [simpl; lia | split; [simpl; lia |]].
  apply verify_loop_first_mismatch; simpl; lia.
Defined.

Lemma Verify_result_witness :
  flashprg_inv ex_state /\ 20 <= PAGE_SIZE /\ (Z.to_nat PAGE_SIZE <= length ex_page)%nat /\
  Verify ex_adr 20 ex_page ex_state =
  Ok (after_read ex_state ex_adr 20,
      match first_mismatch (aux_buf (after_read ex_state ex_adr 20)) ex_page (Z.to_nat PAGE_SIZE) with
      | Some k => ex_adr +ᵤ Z.of_nat k | None => ex_adr +ᵤ 20 end).
Proof.
  split; [apply ex_state_inv |]. split; [unfold PAGE_SIZE; lia |].
  split; [by_decide |].
  apply Verify_result; [apply ex_state_inv | unfold PAGE_SIZE; lia | by_decide].
Defined.

Lemma Verify_overflow_witness :
  PAGE_SIZE < 8192 /\ Verify ex_adr 8192 ex_page ex_state = Fault BufferOverflow.
Proof. split; [unfold PAGE_SIZE; lia | apply Verify_overflow; unfold PAGE_SIZE; lia]. Defined.

(** On the blank chip, byte 0 reads 0xFF while the data holds 0. *)
Lemma Verify_reports_first_mismatch_witness :
  flashprg_inv ex_state /\ 0 <= 16 <= PAGE_SIZE /\ (Z.to_nat PAGE_SIZE <= length ex_page)%nat /\
  first_mismatch (W25QXX_Read (chip ex_state) (dev_offset ex_state ex_adr) 16) ex_page 16 = Some 0%nat /\
  Verify ex_adr 16 ex_page ex_state = Ok (after_read ex_state ex_adr 16, ex_adr +ᵤ 0).
Proof.
  split; [apply ex_state_inv |]. split; [unfold PAGE_SIZE; lia |].
  split; [by_decide |]. split; [vm_compute; reflexivity |].
  apply (Verify_reports_first_mismatch ex_state ex_adr 16 ex_page 0);
    [apply ex_state_inv | unfold PAGE_SIZE; lia | by_decide | vm_compute; reflexivity].
Defined.

Lemma Verify_refines_verify_spec_witness :
  flashprg_inv ex_state /\ 0 <= PAGE_SIZE <= PAGE_SIZE /\ (Z.to_nat PAGE_SIZE <= length ex_page)%nat /\
  Verify ex_adr PAGE_SIZE ex_page ex_state =
  Ok (after_read ex_state ex_adr PAGE_SIZE,
      verify_spec (W25QXX_Read (chip ex_state) (dev_offset ex_state ex_adr) PAGE_SIZE) ex_page ex_adr PAGE_SIZE).
Proof.
  split; [apply ex_state_inv |]. split; [unfold PAGE_SIZE; lia |].
  split; [by_decide |].
  apply Verify_refines_verify_spec;
    [apply ex_state_inv | unfold PAGE_SIZE; lia | by_decide | intros j Hj; lia].
Defined.

(** The host buffer of a 20-byte last page: the data, padded with 0xFF. *)
Definition ex_partial : list Z := take 20 ex_page ++ replicate 4076 ERASED.
(** [aux_buf] as an earlier verify left it: erased bytes, and a zero at 21. *)
Definition ex_stale : FlashPrg nor_flash :=
  mkFlashPrg (<[21%nat := 0]> (replicate 4096 ERASED)) ex_base
             (nor_write ex_partial 4096 20 blank_chip).

Lemma Verify_reports_stale_tail_witness :
  flashprg_inv ex_stale /\ 0 <= 20 <= PAGE_SIZE /\ (Z.to_nat PAGE_SIZE <= length ex_partial)%nat /\
  agree_below (W25QXX_Read (chip ex_stale) (dev_offset ex_stale ex_adr) 20) ex_partial 20 /\
  (Z.to_nat 20 <= 21 < Z.to_nat PAGE_SIZE)%nat /\ aux_buf ex_stale !! 21%nat ≠ ex_partial !! 21%nat /\
  (forall j, (Z.to_nat 20 <= j < 21)%nat -> aux_buf ex_stale !! j = ex_partial !! j) /\
  Verify ex_adr 20 ex_partial ex_stale = Ok (after_read ex_stale ex_adr 20, ex_adr +ᵤ Z.of_nat 21).
Proof.
  assert (flashprg_inv ex_stale) as Hinv.
  { split; [reflexivity |]. split; [by_decide |].
    split; [by_decide |].
    intros a. apply land_byte || (simpl; case_decide; [| unfold is_byte, ERASED; lia]).
    apply land_byte; [unfold is_byte, ERASED; lia |].
    destruct (ex_partial !! _) eqn:E; simpl; [| unfold is_byte, ERASED; lia].
    assert (Forall is_byte ex_partial) as Hb by (by_decide).
    by eapply Forall_lookup_1. }
  assert (agree_below (W25QXX_Read (chip ex_stale) (dev_offset ex_stale ex_adr) 20) ex_partial 20) as Hag.
  { intros j Hj. do 20 (destruct j as [| j]; [vm_compute; reflexivity |]). lia. }
  assert (forall j, (Z.to_nat 20 <= j < 21)%nat -> aux_buf ex_stale !! j = ex_partial !! j) as Htail.
  { intros j Hj. assert (j = 20%nat) as -> by lia. vm_compute. reflexivity. }
  assert (aux_buf ex_stale !! 21%nat ≠ ex_partial !! 21%nat) as Hne by (vm_compute; congruence).
  split; [done |]. split; [unfold PAGE_SIZE; lia |]. split; [by_decide |].
  split; [done |]. split; [unfold PAGE_SIZE; lia |]. split; [done |]. split; [done |].
  apply Verify_reports_stale_tail; [done | unfold PAGE_SIZE; lia | by_decide | done | unfold PAGE_SIZE; lia | done | done].
Defined.

Lemma ProgramPage_writes_witness :
  0 <= 20 /\ (Z.to_nat 20 <= length ex_page)%nat /\ Forall is_byte ex_page /\
  erased (chip ex_state) (dev_offset ex_state ex_adr) 20 /\
  exists s', ProgramPage ex_adr 20 ex_page ex_state = Ok (s', 0) /\
    aux_buf s' = aux_buf ex_state /\ base_adr s' = base_adr ex_state /\
    W25QXX_Read (chip s') (dev_offset ex_state ex_adr) 20 = take (Z.to_nat 20) ex_page /\
    (forall b m, b + m <= dev_offset ex_state ex_adr \/ dev_offset ex_state ex_adr + 20 <= b ->
                 W25QXX_Read (chip s') b m = W25QXX_Read (chip ex_state) b m).
Proof.
  assert (Forall is_byte ex_page) as Hb by by_decide.
  assert (erased (chip ex_state) (dev_offset ex_state ex_adr) 20) as He by (vm_compute; reflexivity).
  split; [lia |]. split; [by_decide |]. split; [done |]. split; [done |].
  apply ProgramPage_writes; [lia | by_decide | done | done].
Defined.

Lemma ProgramPage_short_buffer_witness :
  (length [1; 2] < Z.to_nat 3)%nat /\ ProgramPage ex_adr 3 [1; 2] ex_state = Fault OutOfBoundsRead.
Proof. split; [simpl; lia | apply ProgramPage_short_buffer; simpl; lia]. Defined.

Lemma ProgramPage_Verify_roundtrip_witness :
  flashprg_inv ex_state /\ (Z.to_nat PAGE_SIZE <= length ex_page)%nat /\ Forall is_byte ex_page /\
  erased (chip ex_state) (dev_offset ex_state ex_adr) PAGE_SIZE /\
  exists s1 s2, ProgramPage ex_adr PAGE_SIZE ex_page ex_state = Ok (s1, 0) /\
                Verify ex_adr PAGE_SIZE ex_page s1 = Ok (s2, ex_adr +ᵤ PAGE_SIZE).
Proof.
  assert (Forall is_byte ex_page) as Hb by by_decide.
  assert (erased (chip ex_state) (dev_offset ex_state ex_adr) PAGE_SIZE) as He by (vm_compute; reflexivity).
  split; [apply ex_state_inv |]. split; [by_decide |]. split; [done |]. split; [done |].
  apply ProgramPage_Verify_roundtrip; [apply ex_state_inv | by_decide | done | done].
Defined.

(** An address below the base wraps round to the top of the 32-bit range. *)
Lemma dev_offset_value_witness :
  is_u32 0 /\ is_u32 (base_adr ex_state) /\
  dev_offset ex_state 0 =
  if decide (base_adr ex_state <= 0) then 0 - base_adr ex_state else 0 - base_adr ex_state + 2 ^ 32.
Proof.
  split; [by_decide |]. split; [by_decide |].
  apply dev_offset_value; by_decide.
Defined.

Lemma session_offsets_differ_witness :
  is_u32 ex_base /\ is_u32 0 /\ ex_base ≠ 0 /\
  dev_offset (Init ex_base 0 2 ex_state).1 ex_adr ≠ dev_offset (Init 0 0 2 ex_state).1 ex_adr.
Proof.
  split; [by_decide |]. split; [by_decide |]. split; [unfold ex_base; lia |].
  apply session_offsets_differ; [by_decide | by_decide | unfold ex_base; lia].
Defined.

Lemma EraseSector_erases_witness :
  let off := dev_offset ex_state ex_adr in
  let '(s', ret) := EraseSector ex_adr ex_state in
  ret = 0 /\ aux_buf s' = aux_buf ex_state /\ base_adr s' = base_adr ex_state /\
  (forall a n, sector_base off <= a -> a + n <= sector_base off + SECTOR_SIZE ->
               erased (chip s') a n) /\
  (forall a n, a + n <= sector_base off \/ sector_base off + SECTOR_SIZE <= a ->
               W25QXX_Read (chip s') a n = W25QXX_Read (chip ex_state) a n).
Proof. exact (EraseSector_erases ex_state ex_adr). Defined.

Lemma EraseChip_erases_witness :
  let '(s', ret) := EraseChip ex_state in
  ret = 0 /\ aux_buf s' = aux_buf ex_state /\ base_adr s' = base_adr ex_state /\
  (forall a n, erased (chip s') a n).
Proof. exact (EraseChip_erases ex_state). Defined.

Lemma Init_sets_base_witness :
  let '(s', ret) := Init ex_base 0 2 ex_state in
  ret = 0 /\ base_adr s' = ex_base /\ aux_buf s' = aux_buf ex_state /\
  (forall a n, W25QXX_Read (chip s') a n = W25QXX_Read (chip ex_state) a n).
Proof. exact (Init_sets_base ex_state ex_base 0 2). Defined.

(** 16 bytes below the top of the 32-bit space, with the first mismatch
    at byte 20: the failure address wraps round to 4. *)
Definition ex_top : Z := 4294967280.
Definition ex_wrap_data : list Z := replicate 20 ERASED ++ replicate 4076 0.

Lemma Verify_result_window_witness :
  exists s' r,
    flashprg_inv ex_state /\ 0 <= 4096 /\ (Z.to_nat PAGE_SIZE <= length ex_wrap_data)%nat /\
    Verify ex_top 4096 ex_wrap_data ex_state = Ok (s', r) /\ r = 4 /\
    (is_u32 r /\ exists j, 0 <= j <= PAGE_SIZE /\ r = ex_top +ᵤ j).
Proof.
  assert (Verify ex_top 4096 ex_wrap_data ex_state = Ok (after_read ex_state ex_top 4096, 4)) as Hv
    by (vm_compute; reflexivity).
  exists (after_read ex_state ex_top 4096), 4.
  split; [apply ex_state_inv |]. split; [lia |]. split; [by_decide |].
  split; [exact Hv |]. split; [reflexivity |].
  apply (Verify_result_window ex_state ex_top 4096 ex_wrap_data (after_read ex_state ex_top 4096) 4 ex_state_inv);
    [lia | by_decide | exact Hv].
Defined.

(** A freshly loaded [aux_buf] holds zeros and [ex_page] starts 0, 1:
    the empty verify reports a failure at [ex_adr + 1]. *)
Lemma Verify_empty_witness :
  flashprg_inv ex_state /\ (Z.to_nat PAGE_SIZE <= length ex_page)%nat /\
  Verify ex_adr 0 ex_page ex_state = Ok (ex_state, ex_adr + 1).
Proof.
  split_and!; [apply ex_state_inv | by_decide |].
  rewrite Verify_empty by (apply ex_state_inv || by_decide). vm_compute. reflexivity.
Defined.
