(* ===== verification/Session.v ===== *)
(** * The host tool's session: sequences of entry-point calls

    The host tool (Keil MDK) loads the algorithm into RAM.  It then calls
    [Init], a series of [EraseSector] / [EraseChip] / [ProgramPage] /
    [Verify] calls, and [UnInit], once per phase (erase, program,
    verify).  It may reset and reload the algorithm between phases (the
    comment on [Init], line 50).  This file models that protocol:
    - [host_call] is one entry-point call with its arguments;
    - [dispatch] runs one call, and [run] a sequence of calls;
    - [reachable] is the set of states a session can reach from a fresh
      load, by calls and reloads.
    The flash contents survive a reload; the algorithm's RAM does not. *)

From S2P Require Import Prelude Driver NorFlash FlashPrg.

Inductive host_call :=
  | CInit (adr clk fnc : Z)
  | CUnInit (fnc : Z)
  | CEraseChip
  | CEraseSector (adr : Z)
  | CBlankCheck (adr sz pat : Z)
  | CProgramPage (adr sz : Z) (buf : list Z)
  | CVerify (adr sz : Z) (buf : list Z).

(** The arguments fit their C types: [adr] in [unsigned long], the
    buffers made of [unsigned char]s. *)
Definition call_wf (c : host_call) : Prop :=
  match c with
  | CInit adr _ _ => is_u32 adr
  | CProgramPage _ _ buf | CVerify _ _ buf => Forall is_byte buf
  | _ => True
  end.

(** The host's side of the calling convention: [ProgramPage] is given at
    least [sz] bytes, and [Verify] at most one page to read and a page of
    host memory to compare with (the host's page buffer). *)
Definition call_ok (c : host_call) : Prop :=
  match c with
  | CProgramPage _ sz buf => (Z.to_nat sz <= length buf)%nat
  | CVerify _ sz buf => sz <= PAGE_SIZE /\ (Z.to_nat PAGE_SIZE <= length buf)%nat
  | _ => True
  end.

(** The base address in effect after the calls [cs], starting from [b]:
    the address of the last [Init]. *)
Fixpoint session_base (cs : list host_call) (b : Z) : Z :=
  match cs with
  | [] => b
  | CInit adr _ _ :: cs' => session_base cs' adr
  | _ :: cs' => session_base cs' b
  end.

Section Session.
Context `{FlashChipLaws D}.
Implicit Types s : FlashPrg D.

(** The host tool calling one entry point. *)
Definition dispatch (c : host_call) s : result (FlashPrg D * Z) :=
  match c with
  | CInit adr clk fnc => Ok (Init adr clk fnc s)
  | CUnInit fnc => Ok (UnInit fnc s)
  | CEraseChip => Ok (EraseChip s)
  | CEraseSector adr => Ok (EraseSector adr s)
  | CBlankCheck adr sz pat => Ok (BlankCheck adr sz pat s)
  | CProgramPage adr sz buf => ProgramPage adr sz buf s
  | CVerify adr sz buf => Verify adr sz buf s
  end.

(** A sequence of calls, with the list of their return values. *)
Fixpoint run (cs : list host_call) s : result (FlashPrg D * list Z) :=
  match cs with
  | [] => Ok (s, [])
  | c :: cs' =>
      p ← dispatch c s;
      q ← run cs' p.1;
      Ok (q.1, p.2 :: q.2)
  end.

(** The algorithm as the host loads it: its globals are zero. *)
Definition loaded (d : D) : FlashPrg D :=
  mkFlashPrg (replicate (Z.to_nat PAGE_SIZE) 0) 0 d.

Inductive reachable : FlashPrg D -> Prop :=
  | reach_loaded d : chip_wf d -> reachable (loaded d)
  | reach_reload s : reachable s -> reachable (loaded (chip s))
  | reach_call s c s' r :
      reachable s -> call_wf c -> dispatch c s = Ok (s', r) -> reachable s'.

End Session.

(** ** Invariants of a session *)

(** What each call's return status is, when it does not depend on the
    device: [BlankCheck] answers 1, the others 0, [Verify] an address. *)
Definition status_of (c : host_call) : option Z :=
  match c with
  | CVerify _ _ _ => None
  | CBlankCheck _ _ _ => Some 1
  | _ => Some 0
  end.

Section SessionProps.
Context `{FlashChipLaws D}.
Implicit Types s : FlashPrg D.

(** Turns [Ok p = Ok (s', r)] for a pure entry point into equations. *)
Ltac ok_pair H := injection H as H; rewrite <- H; clear H.

(** Each entry point keeps [flashprg_inv]. *)
Lemma dispatch_flashprg_inv c s s' r :
  call_wf c -> flashprg_inv s -> dispatch c s = Ok (s', r) -> flashprg_inv s'.
Proof.
  intros Hc Hinv Hd. destruct c; simpl in Hd, Hc.
  - ok_pair Hd. by apply (Init_inv s adr clk fnc).
  - by ok_pair Hd.
  - ok_pair Hd. by apply EraseChip_inv.
  - ok_pair Hd. by apply EraseSector_inv.
  - by ok_pair Hd.
  - by eapply ProgramPage_inv.
  - by eapply Verify_inv.
Qed.

(** Every reachable state satisfies [flashprg_inv]. *)
Lemma reachable_flashprg_inv s : reachable s -> flashprg_inv s.
Proof.
  induction 1 as [d Hd | s _ IH | s c s' r _ IH Hc Hd].
  - inv_split; cbn; [eauto with flash.. | by_decide | done].
  - inv_split; cbn; [eauto with flash.. | by_decide | apply IH].
  - by eapply dispatch_flashprg_inv.
Qed.

(** C9: Every state a session reaches satisfies the invariant: [aux_buf]
    holds 4096 bytes, [base_adr] is a 32-bit value, the chip is
    well formed. *)
Theorem reachable_inv s : reachable s -> flashprg_inv s.
Proof. apply reachable_flashprg_inv. Qed.

Lemma dispatch_base c s s' r :
  dispatch c s = Ok (s', r) ->
  base_adr s' = match c with CInit adr _ _ => adr | _ => base_adr s end.
Proof.
  intros Hd. destruct c; simpl in Hd;
    try (ok_pair Hd; reflexivity).
  - by apply ProgramPage_Ok in Hd as [-> _].
  - by apply Verify_Ok in Hd as [-> _].
Qed.

(** C10: The base address is fixed for the session: after any sequence of
    calls it is the address of the last [Init], or the one before the
    sequence when there was none. *)
Theorem run_session_base cs s s' rs :
  run cs s = Ok (s', rs) -> base_adr s' = session_base cs (base_adr s).
Proof.
  revert s s' rs. induction cs as [| c cs IH]; intros s s' rs; simpl.
  - by intros [= <- _].
  - destruct (dispatch c s) as [[s1 r] |] eqn:E; cbn [mbind result_bind fst snd]; [| intros Hf; discriminate Hf].
    destruct (run cs s1) as [[s2 rs2] |] eqn:E2; cbn [mbind result_bind fst snd]; [| intros Hf; discriminate Hf].
    intros [= <- _]. rewrite (IH _ _ _ E2), (dispatch_base _ _ _ _ E).
    by destruct c.
Qed.

(** C16: No entry point but [Verify] reports anything the device did: the
    status is fixed by the call. *)
Theorem dispatch_status c s s' r st :
  dispatch c s = Ok (s', r) -> status_of c = Some st -> r = st.
Proof.
  intros Hd Hst. destruct c; simpl in Hd, Hst; try discriminate; injection Hst as <-;
    try (by injection Hd as _ <-).
  by apply ProgramPage_Ok in Hd as [_ ->].
Qed.

(** C8: End to end: in any reachable state, erasing the sector of a
    sector-aligned address, programming a full page there and verifying
    it returns [0], [0] and [adr + 4096]. *)
Theorem session_program_verify s adr buf :
  reachable s -> dev_offset s adr mod SECTOR_SIZE = 0 ->
  (Z.to_nat PAGE_SIZE <= length buf)%nat -> Forall is_byte buf ->
  exists s',
    run [CEraseSector adr; CProgramPage adr PAGE_SIZE buf; CVerify adr PAGE_SIZE buf] s =
    Ok (s', [0; 0; adr +ᵤ PAGE_SIZE]).
Proof.
  intros Hr Hal Hlen Hb. pose proof (reachable_flashprg_inv s Hr) as Hinv.
  destruct (ProgramPage_Verify_eq (EraseSector adr s).1 adr buf)
    as (s2 & s3 & Hp & Hv); [by apply EraseSector_inv | done | done | |].
  { by apply (erase_sector_aligned (chip s) (dev_offset s adr)). }
  exists s3. unfold run, dispatch, mbind, result_bind.
  rewrite Hp. cbn [fst snd]. rewrite Hv. cbn [fst snd]. f_equal.
Qed.
(** A call the host makes within the calling convention never faults. *)
Lemma dispatch_total c s :
  flashprg_inv s -> call_ok c -> exists s' r, dispatch c s = Ok (s', r).
Proof.
  intros Hinv Hc. destruct c; simpl in Hc; try (do 2 eexists; reflexivity).
  - simpl. unfold ProgramPage. rewrite decide_True by done. do 2 eexists; reflexivity.
  - destruct Hc. simpl. rewrite Verify_eq by done. do 2 eexists; reflexivity.
Qed.

Lemma run_cons_Ok c cs s s1 r :
  dispatch c s = Ok (s1, r) ->
  run (c :: cs) s = (q ← run cs s1; Ok (q.1, r :: q.2)).
Proof. intros Hd. cbn [run]. by rewrite Hd. Qed.

(** Running two lists of calls runs the first, then the second. *)
Lemma run_app cs1 cs2 s :
  run (cs1 ++ cs2) s = (p ← run cs1 s; q ← run cs2 p.1; Ok (q.1, p.2 ++ q.2)).
Proof.
  revert s. induction cs1 as [| c cs1 IH]; intros s; cbn [run app mbind result_bind fst snd].
  - by destruct (run cs2 s) as [[? ?] |].
  - destruct (dispatch c s) as [[s1 r] |]; cbn [mbind result_bind fst snd]; [| done].
    rewrite IH. destruct (run cs1 s1) as [[s2 rs2] |]; cbn [mbind result_bind fst snd]; [| done].
    by destruct (run cs2 s2) as [[? ?] |].
Qed.

(** C20: A session terminates: every list of calls made within the calling
    convention runs to completion from a reachable state, with one return
    value per call, and ends in a reachable state. *)
Theorem run_total cs s :
  reachable s -> Forall (fun c => call_wf c /\ call_ok c) cs ->
  exists s' rs, run cs s = Ok (s', rs) /\ length rs = length cs /\ reachable s'.
Proof.
  revert s. induction cs as [| c cs IH]; intros s Hr Hcs; [by exists s, [] |].
  inversion_clear Hcs as [| ? ? [Hwf Hok] Hcs'].
  destruct (dispatch_total c s) as (s1 & r & Hd); [by apply reachable_flashprg_inv | done |].
  destruct (IH s1) as (s2 & rs & Hrun & Hlen & Hr2); [by eapply reach_call | exact Hcs' |].
  exists s2, (r :: rs). rewrite (run_cons_Ok _ _ _ _ _ Hd), Hrun.
  split_and!; [done | simpl; lia | done].
Qed.

End SessionProps.

(** ** Concrete sessions on the NOR flash model *)

(** The state after the host loads the algorithm and calls [Init]. *)
Definition ex_session : FlashPrg nor_flash := (Init ex_base 0 2 (loaded blank_chip)).1.

Lemma ex_session_reachable : reachable ex_session.
Proof.
  apply (reach_call (loaded blank_chip) (CInit ex_base 0 2) _ 0);
    [apply reach_loaded, blank_chip_wf | simpl; by_decide | reflexivity].
Qed.

Lemma reachable_inv_witness :
  reachable (loaded blank_chip) /\ flashprg_inv (loaded blank_chip).
Proof.
  assert (reachable (loaded blank_chip)) as Hr by apply reach_loaded, blank_chip_wf.
  split; [done | apply reachable_inv, Hr].
Defined.

Lemma run_session_base_witness :
  exists s' rs,
    run [CInit ex_base 0 2; CEraseSector ex_adr; CUnInit 2] (loaded blank_chip) = Ok (s', rs) /\
    base_adr s' = session_base [CInit ex_base 0 2; CEraseSector ex_adr; CUnInit 2]
                               (base_adr (loaded blank_chip)).
Proof.
  eexists _, _. split; [reflexivity |].
  eapply run_session_base. reflexivity.
Defined.

Lemma dispatch_status_witness :
  exists s' r,
    dispatch (CEraseSector ex_adr) ex_session = Ok (s', r) /\
    status_of (CEraseSector ex_adr) = Some 0 /\ r = 0.
Proof.
  eexists _, _. split; [reflexivity |]. split; [reflexivity |].
  eapply (dispatch_status (CEraseSector ex_adr) ex_session); reflexivity.
Defined.

Lemma session_program_verify_witness :
  reachable ex_session /\ dev_offset ex_session ex_adr mod SECTOR_SIZE = 0 /\
  (Z.to_nat PAGE_SIZE <= length ex_page)%nat /\ Forall is_byte ex_page /\
  exists s',
    run [CEraseSector ex_adr; CProgramPage ex_adr PAGE_SIZE ex_page; CVerify ex_adr PAGE_SIZE ex_page]
        ex_session = Ok (s', [0; 0; ex_adr +ᵤ PAGE_SIZE]).
Proof.
  assert (Forall is_byte ex_page) as Hb by by_decide.
  split; [apply ex_session_reachable |]. split; [vm_compute; reflexivity |].
  split; [by_decide |]. split; [done |].
  apply session_program_verify; [apply ex_session_reachable | vm_compute; reflexivity | by_decide | done].
Defined.

(** The host's erase, program and verify of one page, within the convention. *)
Definition ex_calls : list host_call :=
  [CEraseSector ex_adr; CProgramPage ex_adr PAGE_SIZE ex_page; CVerify ex_adr PAGE_SIZE ex_page].

Lemma ex_calls_ok : Forall (fun c => call_wf c /\ call_ok c) ex_calls.
Proof.
  apply Forall_forall. intros c Hc. repeat destruct Hc as [<- | Hc]; try done;
    split; simpl; (done || by_decide).
Qed.

Lemma run_total_witness :
  reachable ex_session /\ Forall (fun c => call_wf c /\ call_ok c) ex_calls /\
  exists s' rs, run ex_calls ex_session = Ok (s', rs) /\ length rs = length ex_calls /\ reachable s'.
Proof.
  split; [apply ex_session_reachable |]. split; [apply ex_calls_ok |].
  apply run_total; [apply ex_session_reachable | apply ex_calls_ok].
Defined.
