(* ===== verification/Protocol.v ===== *)
(** * The host's session protocol, and the algorithm run under it

    The spec (§2, §3, §4.1) fixes the order in which the host calls the
    entry points.  [initialize] opens a session and fixes its base
    address.  The erase, blank-check, program and verify calls follow, and
    [deinitialize] closes the session.  [initialize] is called again after
    every hardware reset, which reloads the algorithm.  [FlashPrg.c] never
    checks this order: it relies on the host.

    - [phase] says whether a session is open, and with which base;
    - [proto_step] is the protocol's transition relation, and
      [proto_next] the executable check the host's calls are held to;
    - [sys_reach] runs the algorithm ([dispatch]) and the protocol in
      lockstep from a fresh load, with a reset allowed at any point.

    [sys_reach_inv] shows that the system refines the sessions of
    [Session] and that inside a session [base_adr] is the session's base.
    The claim of the file is that the page buffer outlives the session,
    which the spec says it does not. *)

From S2P Require Import Prelude Driver NorFlash FlashPrg Session.

(** No session is open, or one is open with base address [base]. *)
Inductive phase :=
  | Idle
  | Active (base : Z).

#[export] Instance phase_eq_dec : EqDecision phase.
Proof. solve_decision. Qed.

(** The function codes of [Init] and [UnInit] (comments at lines 43, 69). *)
Definition fnc_codes : list Z := [1; 2; 3].

(** One call of the host, as the protocol allows it.  A session is opened
    by [Init] with a valid function code, only when none is open. *)
Inductive proto_step : phase -> host_call -> phase -> Prop :=
  | ps_init adr clk fnc :
      fnc ∈ fnc_codes -> proto_step Idle (CInit adr clk fnc) (Active adr)
  | ps_uninit b fnc : proto_step (Active b) (CUnInit fnc) Idle
  | ps_erase_chip b : proto_step (Active b) CEraseChip (Active b)
  | ps_erase_sector b adr : proto_step (Active b) (CEraseSector adr) (Active b)
  | ps_blank_check b adr sz pat : proto_step (Active b) (CBlankCheck adr sz pat) (Active b)
  | ps_program b adr sz buf : proto_step (Active b) (CProgramPage adr sz buf) (Active b)
  | ps_verify b adr sz buf : proto_step (Active b) (CVerify adr sz buf) (Active b).

Definition proto_next (p : phase) (c : host_call) : option phase :=
  match p, c with
  | Idle, CInit adr _ fnc => if decide (fnc ∈ fnc_codes) then Some (Active adr) else None
  | Idle, _ | Active _, CInit _ _ _ => None
  | Active _, CUnInit _ => Some Idle
  | Active b, _ => Some (Active b)
  end.

(** The calls of a session other than [Init] and [UnInit]. *)
Definition is_op (c : host_call) : bool :=
  match c with CInit _ _ _ | CUnInit _ => false | _ => true end.

(** One session of the host: [Init] with function code [fnc], the
    session's calls, [UnInit]. *)
Definition host_session (fnc base : Z) (cs : list host_call) : list host_call :=
  [CInit base 0 fnc] ++ cs ++ [CUnInit fnc].

(** The phase after a list of calls, when the protocol accepts them all. *)
Fixpoint proto_run (p : phase) (cs : list host_call) : option phase :=
  match cs with
  | [] => Some p
  | c :: cs' => p' ← proto_next p c; proto_run p' cs'
  end.

Section System.
Context `{FlashChipLaws D}.
Implicit Types s : FlashPrg D.

(** The algorithm and the protocol run together from a fresh load.  A
    reset reloads the algorithm and closes any open session. *)
Inductive sys_reach : phase -> FlashPrg D -> Prop :=
  | sr_loaded d : chip_wf d -> sys_reach Idle (loaded d)
  | sr_reset p s : sys_reach p s -> sys_reach Idle (loaded (chip s))
  | sr_call p s c p' s' r :
      sys_reach p s -> proto_step p c p' -> call_wf c ->
      dispatch c s = Ok (s', r) -> sys_reach p' s'.

(** What the phase says of the state: inside a session, [base_adr] is
    the session's base, a 32-bit value. *)
Definition phase_inv (p : phase) s : Prop :=
  match p with
  | Idle => True
  | Active b => base_adr s = b
  end.
End System.

(** ** The protocol's executable check *)

Lemma proto_next_spec p c p' : proto_next p c = Some p' <-> proto_step p c p'.
Proof.
  split.
  - destruct p, c; simpl; try case_decide; intros; simplify_eq; by constructor.
  - destruct 1; simpl; [by rewrite decide_True | done..].
Qed.

Lemma proto_run_cons p c cs p'' :
  proto_run p (c :: cs) = Some p'' <-> exists p', proto_step p c p' /\ proto_run p' cs = Some p''.
Proof. simpl. rewrite bind_Some. by setoid_rewrite proto_next_spec. Qed.

Lemma proto_run_app p cs1 cs2 :
  proto_run p (cs1 ++ cs2) = p' ← proto_run p cs1; proto_run p' cs2.
Proof.
  revert p. induction cs1 as [| c cs1 IH]; intros p; [done |].
  cbn [app proto_run]. destruct (proto_next p c); [apply IH | done].
Qed.

Lemma proto_run_ops b cs :
  Forall (fun c => is_op c = true) cs -> proto_run (Active b) cs = Some (Active b).
Proof. induction 1 as [| c cs Hc _ IH]; [done |]. by destruct c. Qed.

(** The protocol accepts every session made of operations. *)
Lemma proto_run_host_session fnc b cs :
  fnc ∈ fnc_codes -> Forall (fun c => is_op c = true) cs ->
  proto_run Idle (host_session fnc b cs) = Some Idle.
Proof.
  intros Hf Hcs. unfold host_session. rewrite proto_run_app. cbn.
  rewrite decide_True by done. cbn. by rewrite proto_run_app, proto_run_ops.
Qed.

(** ** The algorithm under the protocol *)

Section SystemProps.
Context `{FlashChipLaws D}.
Implicit Types s : FlashPrg D.

(** The system refines the unconstrained sessions of [Session], and the
    phase describes the state. *)
Lemma sys_reach_inv p s : sys_reach p s -> reachable s /\ phase_inv p s.
Proof.
  induction 1 as [d Hd | p s _ [IH _] | p s c p' s' r _ [IH Hp] Hstep Hc Hd].
  - split; [by apply reach_loaded | done].
  - split; [by apply reach_reload | done].
  - split; [by eapply reach_call |].
    apply dispatch_base in Hd. destruct Hstep; cbn in Hd, Hp |- *; (done || congruence).
Qed.

(** A run of calls the protocol accepts stays in the system. *)
Lemma sys_reach_run p s cs p' s' rs :
  sys_reach p s -> proto_run p cs = Some p' -> Forall call_wf cs ->
  run cs s = Ok (s', rs) -> sys_reach p' s'.
Proof.
  revert p s rs. induction cs as [| c cs IH]; intros p s rs Hs Hp Hwf Hrun.
  - injection Hp as <-. cbn in Hrun. by simplify_eq.
  - apply proto_run_cons in Hp as (p1 & Hst & Hp). inversion_clear Hwf as [| ? ? Hc Hwf'].
    cbn [run] in Hrun. destruct (dispatch c s) as [[s1 r] |] eqn:Hd; [| done].
    cbn [mbind result_bind fst snd] in Hrun.
    destruct (run cs s1) as [[s2 rs2] |] eqn:Hr; [| done]. cbn in Hrun. simplify_eq.
    eapply IH; [| exact Hp | exact Hwf' | exact Hr]. by eapply sr_call.
Qed.

(** A host session runs [Init], then its calls, then [UnInit]. *)
Lemma run_host_session fnc b cs s s' rs :
  run cs (Init b 0 fnc s).1 = Ok (s', rs) ->
  run (host_session fnc b cs) s = Ok (s', 0 :: rs ++ [0]).
Proof.
  intros Hr. unfold host_session. cbn [app].
  rewrite (run_cons_Ok (CInit b 0 fnc) _ s (Init b 0 fnc s).1 0 eq_refl), run_app, Hr.
  reflexivity.
Qed.

(** A host session of well-formed operations, opened with a valid
    function code, keeps the system reachable. *)
Lemma sys_reach_host_session fnc b cs s s' rs :
  sys_reach Idle s -> fnc ∈ fnc_codes -> is_u32 b ->
  Forall (fun c => is_op c = true /\ call_wf c) cs ->
  run (host_session fnc b cs) s = Ok (s', rs) -> sys_reach Idle s'.
Proof.
  intros Hs Hf Hb Hcs Hrun. eapply sys_reach_run; [exact Hs | | | exact Hrun].
  - apply proto_run_host_session; [done |]. eapply Forall_impl; [| exact Hcs]; by intros c [? _].
  - unfold host_session. rewrite !Forall_app, !Forall_singleton. split_and!; [exact Hb | | done].
    eapply Forall_impl; [| exact Hcs]; by intros c [_ ?].
Qed.

(** C21: The page buffer outlives the session, against spec §3 ("not
    persisted across sessions"): closing a session and opening the next
    one without a reset leaves [aux_buf] as the last [Verify] left it. *)
Theorem page_buffer_outlives_session b s fnc adr clk fnc' :
  sys_reach (Active b) s -> is_u32 adr -> fnc' ∈ fnc_codes ->
  exists s', run [CUnInit fnc; CInit adr clk fnc'] s = Ok (s', [0; 0]) /\
             sys_reach (Active adr) s' /\ aux_buf s' = aux_buf s.
Proof.
  intros Hs Ha Hf. eexists. split; [reflexivity |]. split; [| done].
  assert (sys_reach Idle s) as Hi
    by (apply (sr_call (Active b) s (CUnInit fnc) Idle s 0); [done | constructor | done | reflexivity]).
  apply (sr_call Idle s (CInit adr clk fnc') (Active adr) _ 0); [exact Hi | by constructor | done | reflexivity].
Qed.
End SystemProps.

(** ** A session on the NOR flash model *)

Lemma ex_session_sys : sys_reach (Active ex_base) ex_session.
Proof.
  apply (sr_call Idle (loaded blank_chip) (CInit ex_base 0 2) _ _ 0);
    [apply sr_loaded, blank_chip_wf | constructor; by_decide | simpl; by_decide | reflexivity].
Qed.

Lemma page_buffer_outlives_session_witness :
  is_u32 ex_base /\ 3 ∈ fnc_codes /\
  exists s', run [CUnInit 2; CInit ex_base 0 3] ex_session = Ok (s', [0; 0]) /\
             sys_reach (Active ex_base) s' /\ aux_buf s' = aux_buf ex_session.
Proof.
  assert (is_u32 ex_base) as Ha by by_decide.
  assert (3 ∈ fnc_codes) as Hf by by_decide.
  split; [done | split; [done |]].
  apply (page_buffer_outlives_session ex_base); [apply ex_session_sys | done | done].
Defined.
