(* ===== verification/Image.v ===== *)
(** * Downloading an image: the host's erase, program and verify phases

    The host writes an image as a list of pages.  It erases the sectors
    under the image, programs the pages one by one, and verifies them
    one by one, moving the address on by a page (a sector) each time.
    [erase_calls], [program_calls] and [verify_calls] are these call
    lists.  [image_download] composes the controller's entry points
    over a whole image, and [keil_download] runs the image through the
    three protocol sessions of a Keil download.  The later sections
    treat a partial last page, where the stale bytes of [aux_buf] decide
    the verify, and a page programmed without an erase on NOR flash.  The erase phase erases every page of
    the image, and the program phase stores every page and leaves the
    bytes below alone.  The verify phase then reports success for every
    page.  The proofs go through the driver's laws and the lemmas of
    [FlashPrg] and never unfold [Verify]'s loop. *)

From S2P Require Import Prelude Driver NorFlash FlashPrg Session Protocol.

(** On the W25Q256 a sector and a programming page are both 4 KiB. *)
Lemma SECTOR_SIZE_PAGE_SIZE : SECTOR_SIZE = PAGE_SIZE.
Proof. reflexivity. Qed.

Fixpoint erase_calls (adr : Z) (n : nat) : list host_call :=
  match n with
  | O => []
  | S n' => CEraseSector adr :: erase_calls (adr + SECTOR_SIZE) n'
  end.

(** One call [op adr p] per page [p], at consecutive page addresses. *)
Fixpoint page_calls (op : Z -> list Z -> host_call) (adr : Z) (pages : list (list Z)) :
    list host_call :=
  match pages with
  | [] => []
  | p :: ps => op adr p :: page_calls op (adr + PAGE_SIZE) ps
  end.

Definition program_calls : Z -> list (list Z) -> list host_call :=
  page_calls (fun adr p => CProgramPage adr PAGE_SIZE p).

Definition verify_calls : Z -> list (list Z) -> list host_call :=
  page_calls (fun adr p => CVerify adr PAGE_SIZE p).

(** What the verify phase returns: [adr + PAGE_SIZE] for each page. *)
Fixpoint verify_codes (adr : Z) (n : nat) : list Z :=
  match n with
  | O => []
  | S n' => adr +ᵤ PAGE_SIZE :: verify_codes (adr + PAGE_SIZE) n'
  end.

(** A page of the image: 4096 bytes. *)
Definition page_ok (p : list Z) : Prop := length p = Z.to_nat PAGE_SIZE /\ Forall is_byte p.

(** The offset of page [i] of an image at offset [off]. *)
Definition page_off (off : Z) (i : nat) : Z := off + Z.of_nat i * PAGE_SIZE.

Lemma page_off_0 off : page_off off 0 = off.
Proof. unfold page_off. lia. Qed.

Lemma page_off_S off i : page_off off (S i) = page_off (off + PAGE_SIZE) i.
Proof. unfold page_off. lia. Qed.

(** What holds of every call of a page-wise call list. *)
Lemma page_calls_Forall (P : host_call -> Prop) (Q : list Z -> Prop) op adr pages :
  (forall a p, Q p -> P (op a p)) -> Forall Q pages -> Forall P (page_calls op adr pages).
Proof. intros HPQ HQ. revert adr. induction HQ; constructor; auto. Qed.

Lemma erase_calls_Forall (P : host_call -> Prop) adr n :
  (forall a, P (CEraseSector a)) -> Forall P (erase_calls adr n).
Proof. intros HP. revert adr. induction n; constructor; auto. Qed.

Lemma first_mismatch_self l n : (n <= length l)%nat -> first_mismatch l l n = None.
Proof. intros Hn. by apply first_mismatch_None. Qed.

Section Phases.
Context `{FlashChipLaws D}.
Implicit Types s : FlashPrg D.

(** Inside the address space, the offset is the plain difference. *)
Lemma dev_offset_inside s adr :
  is_u32 (base_adr s) -> base_adr s <= adr < 2 ^ 32 -> dev_offset s adr = adr - base_adr s.
Proof.
  intros Hb Ha. apply wrap32_sub_nowrap; [unfold is_u32, U32_MOD in *; lia | done | lia].
Qed.

(** An aligned offset moved on by a sector stays aligned. *)
Lemma aligned_next off : off mod SECTOR_SIZE = 0 -> (off + SECTOR_SIZE) mod SECTOR_SIZE = 0.
Proof. intros Hal. rewrite <- (Z.mul_1_l SECTOR_SIZE) at 1. by rewrite Z_mod_plus_full. Qed.

(** The erase phase erases every page under the image and leaves the
    bytes below the image alone. *)
Lemma run_erase_calls s a n :
  flashprg_inv s -> base_adr s <= a -> (a - base_adr s) mod SECTOR_SIZE = 0 ->
  a + Z.of_nat n * SECTOR_SIZE <= 2 ^ 32 ->
  exists s', run (erase_calls a n) s = Ok (s', replicate n 0) /\
    flashprg_inv s' /\ aux_buf s' = aux_buf s /\ base_adr s' = base_adr s /\
    (forall i, (i < n)%nat -> erased (chip s') (page_off (a - base_adr s) i) PAGE_SIZE) /\
    (forall x m, x + m <= a - base_adr s -> W25QXX_Read (chip s') x m = W25QXX_Read (chip s) x m).
Proof.
  revert a s. induction n as [| n IH]; intros a s Hinv Ha Hal Hfit.
  - exists s. split_and!; [done | done | done | done | lia | done].
  - pose proof Hinv as (_ & _ & Hb & _). assert (dev_offset s a = a - base_adr s) as Hoff.
    { apply dev_offset_inside; [done | unfold SECTOR_SIZE in Hfit; lia]. }
    pose (s1 := (EraseSector a s).1).
    destruct (IH (a + SECTOR_SIZE) s1) as (s' & Hrun & Hinv' & Haux & Hbase & Her & Hfr);
      [by apply EraseSector_inv | cbn; unfold SECTOR_SIZE; lia | cbn; rewrite Z.add_sub_swap; by apply aligned_next
      | unfold SECTOR_SIZE in *; lia |].
    exists s'. cbn [erase_calls]. rewrite (run_cons_Ok (CEraseSector a) _ s s1 0 eq_refl), Hrun.
    cbn in Haux, Hbase, Her, Hfr. rewrite Hoff in Hfr.
    split_and!; [done | done | done | done | |].
    + intros [| i] Hi.
      * unfold erased. rewrite page_off_0, Hfr by (unfold PAGE_SIZE, SECTOR_SIZE; lia).
        by apply erase_sector_aligned.
      * rewrite page_off_S, <- SECTOR_SIZE_PAGE_SIZE, <- Z.add_sub_swap. apply Her. lia.
    + intros x m Hx. rewrite Hfr by (unfold SECTOR_SIZE; lia).
      apply erase_sector_read_other. left. unfold sector_base. rewrite Hal. lia.
Qed.

(** The program phase, on erased pages, stores every page of the image
    and leaves the bytes below the image alone. *)
Lemma run_program_calls s a pages :
  flashprg_inv s -> base_adr s <= a -> a + Z.of_nat (length pages) * PAGE_SIZE <= 2 ^ 32 ->
  Forall page_ok pages ->
  (forall i, (i < length pages)%nat -> erased (chip s) (page_off (a - base_adr s) i) PAGE_SIZE) ->
  exists s', run (program_calls a pages) s = Ok (s', replicate (length pages) 0) /\
    flashprg_inv s' /\ aux_buf s' = aux_buf s /\ base_adr s' = base_adr s /\
    (forall i p, pages !! i = Some p ->
       W25QXX_Read (chip s') (page_off (a - base_adr s) i) PAGE_SIZE = p) /\
    (forall x m, x + m <= a - base_adr s -> W25QXX_Read (chip s') x m = W25QXX_Read (chip s) x m).
Proof.
  revert a s. induction pages as [| p ps IH]; intros a s Hinv Ha Hfit Hok Her.
  - exists s. split_and!; [done.. | intros i q Hq; by rewrite lookup_nil in Hq | done].
  - inversion_clear Hok as [| ? ? [Hlen Hbytes] Hok'].
    pose proof Hinv as (_ & _ & Hb & _). cbn [length] in Hfit, Her.
    assert (dev_offset s a = a - base_adr s) as Hoff.
    { apply dev_offset_inside; [done | unfold PAGE_SIZE in *; lia]. }
    destruct (ProgramPage_eq s a PAGE_SIZE p) as (s1 & Hp & Haux1 & Hb1 & Hrd1 & Hfr1);
      [unfold PAGE_SIZE; lia | lia | done | rewrite Hoff, <- (page_off_0 (a - base_adr s)); apply (Her 0%nat); lia |].
    rewrite Hoff in Hrd1, Hfr1.
    destruct (IH (a + PAGE_SIZE) s1) as (s' & Hrun & Hinv' & Haux & Hbase & Hrd & Hfr);
      [by eapply ProgramPage_inv | rewrite Hb1; unfold PAGE_SIZE; lia
      | unfold PAGE_SIZE in *; lia | exact Hok' | |].
    { intros i Hi. unfold erased.
      rewrite Hfr1 by (right; unfold page_off, PAGE_SIZE in *; rewrite Hb1; lia).
      rewrite Hb1, Z.add_sub_swap, <- page_off_S. apply Her. lia. }
    exists s'. cbn [program_calls page_calls length].
    rewrite (run_cons_Ok (CProgramPage a PAGE_SIZE p) _ s s1 0 Hp), Hrun.
    split_and!; [done | done | congruence | congruence | |].
    + intros [| i] q Hq; cbn in Hq.
      * injection Hq as <-.
        rewrite page_off_0, Hfr by (rewrite Hb1; unfold PAGE_SIZE; lia).
        rewrite Hrd1. apply take_ge. lia.
      * rewrite page_off_S, <- Z.add_sub_swap, <- Hb1. by apply Hrd.
    + intros y m Hy. rewrite Hfr by (rewrite Hb1; unfold PAGE_SIZE; lia). apply Hfr1. by left.
Qed.

(** The verify phase, on a device that holds the image, reports success
    for every page.  It changes [aux_buf] only, which ends up holding the
    last page. *)
Lemma run_verify_calls s a pages :
  flashprg_inv s -> base_adr s <= a -> a + Z.of_nat (length pages) * PAGE_SIZE <= 2 ^ 32 ->
  Forall page_ok pages ->
  (forall i p, pages !! i = Some p ->
     W25QXX_Read (chip s) (page_off (a - base_adr s) i) PAGE_SIZE = p) ->
  exists s', run (verify_calls a pages) s = Ok (s', verify_codes a (length pages)) /\
    base_adr s' = base_adr s /\ chip s' = chip s /\ flashprg_inv s' /\
    aux_buf s' = default (aux_buf s) (pages !! (length pages - 1)%nat).
Proof.
  revert a s. induction pages as [| p ps IH]; intros a s Hinv Ha Hfit Hok Hrd.
  - by exists s.
  - inversion_clear Hok as [| ? ? [Hlen Hbytes] Hok'].
    pose proof Hinv as (_ & _ & Hb & _). cbn [length] in Hfit.
    assert (dev_offset s a = a - base_adr s) as Hoff.
    { apply dev_offset_inside; [done | unfold PAGE_SIZE in *; lia]. }
    assert (Verify a PAGE_SIZE p s = Ok (after_read s a PAGE_SIZE, a +ᵤ PAGE_SIZE)) as Hv.
    { rewrite Verify_spec_eq; [| done | unfold PAGE_SIZE; lia | lia | intros j Hj; lia].
      rewrite Hoff, <- (page_off_0 (a - base_adr s)), (Hrd 0%nat p eq_refl).
      unfold verify_spec. by rewrite first_mismatch_self by lia. }
    destruct (IH (a + PAGE_SIZE) (after_read s a PAGE_SIZE))
      as (s' & Hrun & Hbase & Hchip & Hinv' & Haux);
      [by eapply Verify_inv | cbn; unfold PAGE_SIZE; lia | unfold PAGE_SIZE in *; lia
      | exact Hok' | |].
    { intros i q Hq. cbn. rewrite Z.add_sub_swap, <- page_off_S. by apply (Hrd (S i)). }
    exists s'. cbn [verify_calls page_calls length verify_codes].
    rewrite (run_cons_Ok (CVerify a PAGE_SIZE p) _ s _ _ Hv), Hrun.
    cbn in Hbase, Hchip. split_and!; [done | done | done | done |].
    rewrite Haux. destruct ps as [| q qs].
    2:{ replace (length (p :: q :: qs) - 1)%nat with (S (length qs)) by (simpl; lia).
        replace (length (q :: qs) - 1)%nat with (length qs) by (simpl; lia).
        destruct (lookup_lt_is_Some_2 (q :: qs) (length qs)) as [r Hr]; [simpl; lia |].
        simpl. by rewrite Hr. }
    cbn [lookup list_lookup length default after_read aux_buf].
    rewrite Hoff, <- (page_off_0 (a - base_adr s)), (Hrd 0%nat p eq_refl).
    pose proof Hinv as (Hl & _). rewrite drop_ge by lia. apply app_nil_r.
Qed.
End Phases.

(** ** The whole download *)

Section Download.
Context `{FlashChipLaws D}.
Implicit Types s : FlashPrg D.

(** C22: Downloading an image of [n] pages at [a], sector aligned inside
    the device and inside the 32-bit address space: the erase phase
    returns [n] zeros, the program phase [n] zeros, and the verify phase
    [a + 4096], [a + 8192], ... for the pages, and the device ends up
    holding every page of the image at its offset. *)
Theorem image_download s a pages :
  reachable s -> base_adr s <= a -> (a - base_adr s) mod SECTOR_SIZE = 0 ->
  a + Z.of_nat (length pages) * PAGE_SIZE <= 2 ^ 32 -> Forall page_ok pages ->
  exists s',
    run (erase_calls a (length pages) ++ program_calls a pages ++ verify_calls a pages) s =
    Ok (s', replicate (length pages) 0 ++ replicate (length pages) 0 ++
            verify_codes a (length pages)) /\
    (forall i p, pages !! i = Some p ->
       W25QXX_Read (chip s') (page_off (a - base_adr s) i) PAGE_SIZE = p).
Proof.
  intros Hr Ha Hal Hfit Hok. pose proof (reachable_flashprg_inv s Hr) as Hinv.
  destruct (run_erase_calls s a (length pages)) as (s1 & He & Hinv1 & _ & Hb1 & Her & _);
    [done | done | done | by rewrite SECTOR_SIZE_PAGE_SIZE |].
  destruct (run_program_calls s1 a pages) as (s2 & Hp & Hinv2 & _ & Hb2 & Hrd & _);
    [done | by rewrite Hb1 | done | done | rewrite Hb1; intros i Hi; by apply Her |].
  destruct (run_verify_calls s2 a pages) as (s3 & Hv & _ & Hc3 & _);
    [done | by rewrite Hb2, Hb1 | done | done | rewrite Hb2; exact Hrd |].
  exists s3. rewrite run_app, He. cbn [mbind result_bind fst snd].
  rewrite run_app, Hp. cbn [mbind result_bind fst snd]. rewrite Hv.
  split; [done |]. intros i p Hi. rewrite Hc3, <- Hb1. by apply Hrd.
Qed.
End Download.

(** ** A partial last page *)

Section PartialPage.
Context `{FlashChipLaws D}.
Implicit Types s : FlashPrg D.

(** The result of a verify phase that ends with a partial page. *)
Lemma verify_partial_eq s a pages m q :
  flashprg_inv s -> base_adr s <= a ->
  a + Z.of_nat (S (length pages)) * PAGE_SIZE <= 2 ^ 32 ->
  Forall page_ok pages -> 0 <= m <= PAGE_SIZE -> length q = Z.to_nat PAGE_SIZE ->
  (forall i p, pages !! i = Some p ->
     W25QXX_Read (chip s) (page_off (a - base_adr s) i) PAGE_SIZE = p) ->
  W25QXX_Read (chip s) (page_off (a - base_adr s) (length pages)) m = take (Z.to_nat m) q ->
  let a' := a + Z.of_nat (length pages) * PAGE_SIZE in
  let window := take (Z.to_nat m) q ++
                drop (Z.to_nat m) (default (aux_buf s) (pages !! (length pages - 1)%nat)) in
  exists s',
    run (verify_calls a pages ++ [CVerify a' m q]) s =
    Ok (s', verify_codes a (length pages) ++
            [match first_mismatch window q (Z.to_nat PAGE_SIZE) with
             | Some k => a' +ᵤ Z.of_nat k
             | None => a' +ᵤ m
             end]).
Proof.
  intros Hinv Ha Hfit Hok Hm Hq Hrd Hlast a' window.
  destruct (run_verify_calls s a pages) as (s1 & Hv & Hb1 & Hc1 & Hinv1 & Haux1);
    [done | done | unfold PAGE_SIZE in *; lia | done | done |].
  pose proof Hinv1 as (_ & _ & Hu1 & _).
  assert (dev_offset s1 a' = page_off (a - base_adr s) (length pages)) as Hoff.
  { rewrite dev_offset_inside; [| done | unfold a', PAGE_SIZE in *; lia].
    unfold page_off, a'. lia. }
  assert (aux_buf (after_read s1 a' m) = window) as Hwin.
  { cbn [after_read aux_buf]. by rewrite Hoff, Hc1, Hlast, Haux1. }
  exists (after_read s1 a' m). rewrite run_app, Hv. cbn [mbind result_bind fst snd run dispatch].
  rewrite Verify_eq by (done || unfold PAGE_SIZE in *; lia).
  cbn [mbind result_bind fst snd]. by rewrite Hwin.
Qed.

(** C26: The verify phase of an image whose last page is partial, [m]
    bytes of the host's page buffer [q], exact on the device.  Every full
    page verifies, and the last [Verify] scans the [m] bytes read,
    followed by the previous page, which is still in [aux_buf].  It
    reports success only when that page agrees with [q] past [m].
    Otherwise it reports the first such byte as a failure. *)
Theorem verify_partial_last_page s a pages m q :
  flashprg_inv s -> base_adr s <= a ->
  a + Z.of_nat (S (length pages)) * PAGE_SIZE <= 2 ^ 32 ->
  Forall page_ok pages -> 0 <= m <= PAGE_SIZE -> length q = Z.to_nat PAGE_SIZE ->
  (forall i p, pages !! i = Some p ->
     W25QXX_Read (chip s) (page_off (a - base_adr s) i) PAGE_SIZE = p) ->
  W25QXX_Read (chip s) (page_off (a - base_adr s) (length pages)) m = take (Z.to_nat m) q ->
  let a' := a + Z.of_nat (length pages) * PAGE_SIZE in
  let window := take (Z.to_nat m) q ++
                drop (Z.to_nat m) (default (aux_buf s) (pages !! (length pages - 1)%nat)) in
  exists s',
    run (verify_calls a pages ++ [CVerify a' m q]) s =
    Ok (s', verify_codes a (length pages) ++
            [match first_mismatch window q (Z.to_nat PAGE_SIZE) with
             | Some k => a' +ᵤ Z.of_nat k
             | None => a' +ᵤ m
             end]).
Proof. apply verify_partial_eq. Qed.

(** C27: Why the code works for a host that reuses one page buffer.  The
    host copies the [m] bytes [d] of the partial page over the previous
    page [p] in its buffer.  The stale bytes of [aux_buf] past [m] are
    then [p]'s, and they agree with the host buffer.  So the last
    [Verify] reports success, [a' + m], whatever [p] holds. *)
Theorem verify_partial_reused_buffer s a pages p m d :
  flashprg_inv s -> base_adr s <= a ->
  a + Z.of_nat (S (length (pages ++ [p]))) * PAGE_SIZE <= 2 ^ 32 ->
  Forall page_ok (pages ++ [p]) -> 0 <= m <= PAGE_SIZE -> (Z.to_nat m <= length d)%nat ->
  (forall i p', (pages ++ [p]) !! i = Some p' ->
     W25QXX_Read (chip s) (page_off (a - base_adr s) i) PAGE_SIZE = p') ->
  W25QXX_Read (chip s) (page_off (a - base_adr s) (length (pages ++ [p]))) m =
    take (Z.to_nat m) d ->
  let a' := a + Z.of_nat (length (pages ++ [p])) * PAGE_SIZE in
  let q := take (Z.to_nat m) d ++ drop (Z.to_nat m) p in
  exists s',
    run (verify_calls a (pages ++ [p]) ++ [CVerify a' m q]) s =
    Ok (s', verify_codes a (length (pages ++ [p])) ++ [a' +ᵤ m]).
Proof.
  intros Hinv Ha Hfit Hok Hm Hd Hrd Hlast a' q.
  pose proof Hok as Hp1. rewrite Forall_app in Hp1. destruct Hp1 as [_ Hp1].
  inversion_clear Hp1 as [| ? ? [Hp _] _].
  assert (take (Z.to_nat m) q = take (Z.to_nat m) d) as Htq.
  { unfold q. rewrite take_app_le, take_ge by (rewrite ?length_take; lia). done. }
  assert (length q = Z.to_nat PAGE_SIZE) as Hq.
  { unfold q. rewrite length_app, length_take, length_drop. unfold PAGE_SIZE in *. lia. }
  destruct (verify_partial_eq s a (pages ++ [p]) m q) as [s' Hrun];
    [done | done | done | done | done | done | done | by rewrite Htq |].
  exists s'. etransitivity; [exact Hrun |]. do 3 f_equal.
  replace ((pages ++ [p]) !! (length (pages ++ [p]) - 1)%nat) with (Some p).
  - cbn [default]. rewrite Htq. fold q. rewrite first_mismatch_self; [done | rewrite Hq; lia].
  - rewrite length_app. cbn [length]. rewrite Nat.add_sub, list_lookup_middle; done.
Qed.
End PartialPage.

(** ** The Keil flow: an erase, a program and a verify session

    The host runs the download as three sessions (function codes 1, 2
    and 3), and resets the target before [Init] of the later ones (the
    comment on [Init], line 50).  The reset reloads the algorithm, so each
    session starts with zeroed globals on the same chip. *)

Section Keil.
Context `{FlashChipLaws D}.
Implicit Types s : FlashPrg D.

Lemma erase_calls_ok a n : Forall (fun c => is_op c = true /\ call_wf c) (erase_calls a n).
Proof. by apply erase_calls_Forall. Qed.

Lemma program_calls_ok a pages :
  Forall page_ok pages -> Forall (fun c => is_op c = true /\ call_wf c) (program_calls a pages).
Proof. apply page_calls_Forall. by intros ? ? [_ ?]. Qed.

Lemma verify_calls_ok a pages :
  Forall page_ok pages -> Forall (fun c => is_op c = true /\ call_wf c) (verify_calls a pages).
Proof. apply page_calls_Forall. by intros ? ? [_ ?]. Qed.

(** [Init b] in a reachable state gives a state with the invariant. *)
Lemma sys_reach_Init_inv s b fnc :
  sys_reach Idle s -> is_u32 b -> flashprg_inv (Init b 0 fnc s).1.
Proof.
  intros Hs Hb. apply Init_inv; [done |].
  apply reachable_flashprg_inv. by destruct (sys_reach_inv _ _ Hs).
Qed.

(** C23: The Keil flow.  From any state the protocol reaches between
    sessions, the erase session returns 0 for [Init], each erase and
    [UnInit].  After a reset, the program session returns 0 for every
    call, and after another reset the verify session returns
    [a + 4096 * (i + 1)] for page [i].  The system ends between sessions,
    and the device holds the image. *)
Theorem keil_download s b a pages :
  sys_reach Idle s -> is_u32 b -> b <= a -> (a - b) mod SECTOR_SIZE = 0 ->
  a + Z.of_nat (length pages) * PAGE_SIZE <= 2 ^ 32 -> Forall page_ok pages ->
  exists s1 s2 s3,
    run (host_session 1 b (erase_calls a (length pages))) s =
      Ok (s1, 0 :: replicate (length pages) 0 ++ [0]) /\
    run (host_session 2 b (program_calls a pages)) (loaded (chip s1)) =
      Ok (s2, 0 :: replicate (length pages) 0 ++ [0]) /\
    run (host_session 3 b (verify_calls a pages)) (loaded (chip s2)) =
      Ok (s3, 0 :: verify_codes a (length pages) ++ [0]) /\
    sys_reach Idle s3 /\
    (forall i p, pages !! i = Some p ->
       W25QXX_Read (chip s3) (page_off (a - b) i) PAGE_SIZE = p).
Proof.
  intros Hs Hb Ha Hal Hfit Hok.
  destruct (run_erase_calls (Init b 0 1 s).1 a (length pages))
    as (s1 & He & _ & _ & _ & Her & _);
    [by apply sys_reach_Init_inv | done | done | by rewrite SECTOR_SIZE_PAGE_SIZE |].
  pose proof (run_host_session 1 b _ s _ _ He) as He'.
  assert (sys_reach Idle (loaded (chip s1))) as Hs1.
  { eapply sr_reset. eapply (sys_reach_host_session 1 b);
      [exact Hs | by_decide | done | apply erase_calls_ok | exact He']. }
  destruct (run_program_calls (Init b 0 2 (loaded (chip s1))).1 a pages)
    as (s2 & Hp & _ & _ & _ & Hrd & _);
    [by apply sys_reach_Init_inv | done | done | done | |].
  { intros i Hi. unfold erased. cbn [Init fst chip base_adr loaded] in *.
    rewrite init_read. by apply Her. }
  pose proof (run_host_session 2 b _ _ _ _ Hp) as Hp'.
  assert (sys_reach Idle (loaded (chip s2))) as Hs2.
  { eapply sr_reset. eapply (sys_reach_host_session 2 b);
      [exact Hs1 | by_decide | done | by apply program_calls_ok | exact Hp']. }
  destruct (run_verify_calls (Init b 0 3 (loaded (chip s2))).1 a pages)
    as (s3 & Hv & _ & Hc3 & _);
    [by apply sys_reach_Init_inv | done | done | done | |].
  { intros i p Hi. cbn [Init fst chip base_adr loaded] in *. rewrite init_read. by apply Hrd. }
  pose proof (run_host_session 3 b _ _ _ _ Hv) as Hv'.
  exists s1, s2, s3. split_and!; [done | done | done | |].
  - eapply (sys_reach_host_session 3 b);
      [exact Hs2 | by_decide | done | by apply verify_calls_ok | exact Hv'].
  - intros i p Hi. cbn [Init fst chip base_adr loaded] in *. rewrite Hc3, init_read.
    by apply Hrd.
Qed.
End Keil.

(** ** A two-page image on the NOR flash model *)

Definition ex_image : list (list Z) := [ex_page; ex_page].

Lemma image_download_witness :
  reachable ex_session /\ base_adr ex_session <= ex_adr /\
  (ex_adr - base_adr ex_session) mod SECTOR_SIZE = 0 /\
  ex_adr + Z.of_nat (length ex_image) * PAGE_SIZE <= 2 ^ 32 /\ Forall page_ok ex_image /\
  exists s',
    run (erase_calls ex_adr (length ex_image) ++ program_calls ex_adr ex_image ++
         verify_calls ex_adr ex_image)
        ex_session = Ok (s', [0; 0; 0; 0; ex_adr + 4096; ex_adr + 8192]) /\
    (forall i p, ex_image !! i = Some p ->
       W25QXX_Read (chip s') (page_off (ex_adr - base_adr ex_session) i) PAGE_SIZE = p).
Proof.
  assert (page_ok ex_page) as Hp by (split; by_decide).
  assert (Forall page_ok ex_image) as Hok by (constructor; [done | constructor; [done | constructor]]).
  split; [apply ex_session_reachable |].
  split_and!; [vm_compute; done | vm_compute; reflexivity | vm_compute; done | done |].
  destruct (image_download ex_session ex_adr ex_image) as (s' & Hrun & Hrd);
    [apply ex_session_reachable | vm_compute; done | vm_compute; reflexivity
    | vm_compute; done | done |].
  exists s'. split; [| exact Hrd]. rewrite Hrun. vm_compute. reflexivity.
Defined.

Lemma keil_download_witness :
  sys_reach Idle (loaded blank_chip) /\ is_u32 ex_base /\ ex_base <= ex_adr /\
  (ex_adr - ex_base) mod SECTOR_SIZE = 0 /\
  ex_adr + Z.of_nat (length ex_image) * PAGE_SIZE <= 2 ^ 32 /\ Forall page_ok ex_image /\
  exists s1 s2 s3,
    run (host_session 1 ex_base (erase_calls ex_adr (length ex_image))) (loaded blank_chip) =
      Ok (s1, 0 :: replicate (length ex_image) 0 ++ [0]) /\
    run (host_session 2 ex_base (program_calls ex_adr ex_image)) (loaded (chip s1)) =
      Ok (s2, 0 :: replicate (length ex_image) 0 ++ [0]) /\
    run (host_session 3 ex_base (verify_calls ex_adr ex_image)) (loaded (chip s2)) =
      Ok (s3, 0 :: verify_codes ex_adr (length ex_image) ++ [0]) /\
    sys_reach Idle s3 /\
    (forall i p, ex_image !! i = Some p ->
       W25QXX_Read (chip s3) (page_off (ex_adr - ex_base) i) PAGE_SIZE = p).
Proof.
  assert (sys_reach Idle (loaded blank_chip)) as Hs by apply sr_loaded, blank_chip_wf.
  assert (page_ok ex_page) as Hp by (split; by_decide).
  assert (Forall page_ok ex_image) as Hok by (constructor; [done | constructor; [done | constructor]]).
  assert (is_u32 ex_base) as Hb by by_decide.
  split_and!; [done | done | vm_compute; done | vm_compute; reflexivity | vm_compute; done | done |].
  apply keil_download;
    [done | done | vm_compute; done | vm_compute; reflexivity | vm_compute; done | done].
Defined.

(** A page programmed at [ex_adr], and a host page buffer padded with
    0xFF for a partial page of 255 bytes of 0xFF after it. *)
Definition ex_programmed : FlashPrg nor_flash :=
  with_chip ex_state (W25QXX_Write_NoCheck ex_page (ex_adr - ex_base) PAGE_SIZE blank_chip).

Definition ex_pad : list Z := replicate 4096 255.

Lemma ex_programmed_inv : flashprg_inv ex_programmed.
Proof.
  destruct ex_state_inv as (Hl & Hb & Hu & Hc).
  split_and!; [done | done | done |]. apply write_wf; [by_decide | exact Hc].
Qed.

(** The witness shows the false failure: the device holds the 255 bytes,
    the spec's result is [a' + 255], and [Verify] reports [a' + 256]. *)
Lemma verify_partial_last_page_witness :
  flashprg_inv ex_programmed /\ base_adr ex_programmed <= ex_adr /\
  ex_adr + Z.of_nat (S (length [ex_page])) * PAGE_SIZE <= 2 ^ 32 /\
  Forall page_ok [ex_page] /\ 0 <= 255 <= PAGE_SIZE /\ length ex_pad = Z.to_nat PAGE_SIZE /\
  W25QXX_Read (chip ex_programmed) (page_off (ex_adr - ex_base) 1) 255 = take 255 ex_pad /\
  exists s',
    run (verify_calls ex_adr [ex_page] ++ [CVerify (ex_adr + 4096) 255 ex_pad]) ex_programmed =
    Ok (s', [ex_adr + 4096; ex_adr + 4096 + 256]).
Proof.
  assert (page_ok ex_page) as Hp by (split; by_decide).
  assert (W25QXX_Read (chip ex_programmed) (page_off (ex_adr - ex_base) 1) 255 = take 255 ex_pad)
    as Hlast by (vm_compute; reflexivity).
  split_and!; [apply ex_programmed_inv | vm_compute; done | vm_compute; done
              | by constructor | lia | unfold PAGE_SIZE; lia | by_decide | exact Hlast |].
  destruct (verify_partial_last_page ex_programmed ex_adr [ex_page] 255 ex_pad) as [s' Hrun];
    [apply ex_programmed_inv | vm_compute; done | vm_compute; done | by constructor
    | unfold PAGE_SIZE; lia | by_decide | | exact Hlast |].
  { intros [| i] p Hi; [| done]. injection Hi as <-. vm_compute. reflexivity. }
  exists s'. etransitivity; [exact Hrun |]. vm_compute. reflexivity.
Defined.

(** The same device as above, verified by a host that reuses its page
    buffer: the last [Verify] now reports success, [a' + 255]. *)
Lemma verify_partial_reused_buffer_witness :
  flashprg_inv ex_programmed /\ base_adr ex_programmed <= ex_adr /\
  ex_adr + Z.of_nat (S (length ([] ++ [ex_page]))) * PAGE_SIZE <= 2 ^ 32 /\
  Forall page_ok ([] ++ [ex_page]) /\ 0 <= 255 <= PAGE_SIZE /\
  (Z.to_nat 255 <= length (replicate 255 255))%nat /\
  W25QXX_Read (chip ex_programmed) (page_off (ex_adr - ex_base) 1) 255 =
    take 255 (replicate 255 255) /\
  exists s',
    run (verify_calls ex_adr [ex_page] ++
         [CVerify (ex_adr + 4096) 255 (replicate 255 255 ++ drop 255 ex_page)]) ex_programmed =
    Ok (s', [ex_adr + 4096; ex_adr + 4096 + 255]).
Proof.
  assert (page_ok ex_page) as Hp by (split; by_decide).
  assert (W25QXX_Read (chip ex_programmed) (page_off (ex_adr - ex_base) 1) 255 =
          take 255 (replicate 255 255)) as Hlast by (vm_compute; reflexivity).
  split_and!; [apply ex_programmed_inv | vm_compute; done | vm_compute; done
              | by constructor | lia | unfold PAGE_SIZE; lia | by_decide | exact Hlast |].
  destruct (verify_partial_reused_buffer ex_programmed ex_adr [] ex_page 255 (replicate 255 255))
    as [s' Hrun];
    [apply ex_programmed_inv | vm_compute; done | vm_compute; done | by constructor
    | unfold PAGE_SIZE; lia | by_decide | | exact Hlast |].
  { intros [| i] p Hi; [| done]. injection Hi as <-. vm_compute. reflexivity. }
  exists s'. etransitivity; [exact Hrun |]. vm_compute. reflexivity.
Defined.

(** ** Programming without erasing *)

(** C28: The order erase-then-program matters (spec §4.1: the caller
    must have erased the target first).  On NOR flash, a page programmed
    without an erase holds the AND of the old and the new bytes.  The
    following [Verify] of the page checks exactly that: it reports the
    first byte where the old contents cleared a bit that the data sets,
    and success only when no such byte exists. *)
Theorem program_without_erase (s : FlashPrg nor_flash) adr buf :
  flashprg_inv s -> page_ok buf ->
  exists s1 s2, ProgramPage adr PAGE_SIZE buf s = Ok (s1, 0) /\
    Verify adr PAGE_SIZE buf s1 =
    Ok (s2, verify_spec (zip_with Z.land (W25QXX_Read (chip s) (dev_offset s adr) PAGE_SIZE)
                                         (take (Z.to_nat PAGE_SIZE) buf)) buf adr PAGE_SIZE).
Proof.
  intros Hinv [Hlen Hbuf].
  set (s1 := with_chip s (W25QXX_Write_NoCheck buf (dev_offset s adr) PAGE_SIZE (chip s))).
  assert (ProgramPage adr PAGE_SIZE buf s = Ok (s1, 0)) as Hp.
  { unfold ProgramPage. by rewrite decide_True by lia. }
  exists s1. eexists. split; [exact Hp |].
  rewrite Verify_spec_eq; [| by eapply ProgramPage_inv | unfold PAGE_SIZE; lia | lia | intros j Hj; lia].
  change (W25QXX_Read (chip s1) (dev_offset s1 adr) PAGE_SIZE) with
    (nor_read (nor_write buf (dev_offset s adr) PAGE_SIZE (chip s)) (dev_offset s adr) PAGE_SIZE).
  rewrite nor_write_read_and by lia. done.
Qed.

(** [ex_page] programmed again over itself shifted by one byte, without
    an erase: byte 0 held 0, so the first byte already fails. *)
Definition ex_shifted : list Z := drop 1 ex_page ++ [0].

Lemma program_without_erase_witness :
  flashprg_inv ex_programmed /\ page_ok ex_shifted /\
  exists s1 s2, ProgramPage ex_adr PAGE_SIZE ex_shifted ex_programmed = Ok (s1, 0) /\
    Verify ex_adr PAGE_SIZE ex_shifted s1 = Ok (s2, ex_adr).
Proof.
  assert (page_ok ex_shifted) as Hb by (split; by_decide).
  split_and!; [apply ex_programmed_inv | done |].
  destruct (program_without_erase ex_programmed ex_adr ex_shifted) as (s1 & s2 & Hp & Hv);
    [apply ex_programmed_inv | done |].
  exists s1, s2. split; [exact Hp |]. rewrite Hv. vm_compute. reflexivity.
Defined.
