(* ===== verification/Refinement.v ===== *)
(** * The controller refines the spec's abstract machine

    Spec §3 and §4.1 describe the controller without its page buffer.
    The state is the session's base address and the bytes of the device.
    [initialize] sets the base.  [erase_sector] sets the sector holding
    [address - base] to 0xFF, [program_page] stores [size] bytes there,
    and [verify] compares [size] bytes of the device with the data.
    [spec_step] is this machine, and [spec_ok] is the host's side of the
    contract: addresses at or above the base and inside the address
    space, programming only erased bytes, and verifying whole pages.
    These are the conditions under which the spec's words hold of the
    code.

    [refines] relates the algorithm, run on any driver that is a byte
    memory ([FlashMemory] of [Driver], which the NOR flash of [NorFlash]
    is), to the abstract state.  [run_refines] is a forward simulation: every
    run of calls within the contract returns what the abstract machine
    returns, and ends in a related state.  The page buffer is invisible
    there.  [Verify] of a partial page is left out of the contract: the
    stale tail of [aux_buf] makes the code differ from the spec there
    ([FlashPrg.Verify_reports_stale_tail]). *)

From S2P Require Import Prelude Driver NorFlash FlashPrg Session.

(** The spec's data model (§3): the session's base address and the
    device's bytes by offset. *)
Record spec_state := SpecState { sp_base : Z; sp_mem : Z -> Z }.

(** [n] bytes of the device from offset [off]. *)
Definition sp_slice (m : Z -> Z) (off n : Z) : list Z :=
  (fun k : nat => m (off + Z.of_nat k)) <$> seq 0 (Z.to_nat n).

(** The device offset of §3: [requested_address - base_address]. *)
Definition sp_offset (σ : spec_state) (adr : Z) : Z := adr - sp_base σ.

(** The spec's operations (§4.1), each with its status or result. *)
Definition spec_step (c : host_call) (σ : spec_state) : spec_state * Z :=
  match c with
  | CInit adr _ _ => (SpecState adr (sp_mem σ), 0)
  | CUnInit _ => (σ, 0)
  | CEraseChip => (SpecState (sp_base σ) (fun _ => ERASED), 0)
  | CEraseSector adr =>
      let off := sp_offset σ adr in
      (SpecState (sp_base σ) (fun x =>
         if decide (sector_base off <= x < sector_base off + SECTOR_SIZE)
         then ERASED else sp_mem σ x), 0)
  | CBlankCheck _ _ _ => (σ, 1)
  | CProgramPage adr sz buf =>
      let off := sp_offset σ adr in
      (SpecState (sp_base σ) (fun x =>
         if decide (off <= x < off + sz) then default ERASED (buf !! Z.to_nat (x - off))
         else sp_mem σ x), 0)
  | CVerify adr sz buf => (σ, verify_spec (sp_slice (sp_mem σ) (sp_offset σ adr) sz) buf adr sz)
  end.

Fixpoint spec_run (cs : list host_call) (σ : spec_state) : spec_state * list Z :=
  match cs with
  | [] => (σ, [])
  | c :: cs' =>
      let '(σ1, r) := spec_step c σ in
      let '(σ2, rs) := spec_run cs' σ1 in
      (σ2, r :: rs)
  end.

(** A host address of the session: at or above the base, inside the
    32-bit address space. *)
Definition in_session (σ : spec_state) (adr : Z) : Prop := sp_base σ <= adr /\ is_u32 adr.

(** The host's side of the contract for one call (§4.1, §6). *)
Definition spec_ok (σ : spec_state) (c : host_call) : Prop :=
  call_wf c /\ call_ok c /\
  match c with
  | CEraseSector adr => in_session σ adr
  | CProgramPage adr sz _ =>
      in_session σ adr /\ 0 <= sz /\
      forall x, sp_offset σ adr <= x < sp_offset σ adr + sz -> sp_mem σ x = ERASED
  | CVerify adr sz _ => in_session σ adr /\ sz = PAGE_SIZE
  | _ => True
  end.

Fixpoint spec_ok_run (σ : spec_state) (cs : list host_call) : Prop :=
  match cs with
  | [] => True
  | c :: cs' => spec_ok σ c /\ spec_ok_run (spec_step c σ).1 cs'
  end.

Section Simulation.
Context `{FlashChipLaws D, !FlashMemory D}.
Implicit Types s : FlashPrg D.

(** The algorithm implements the abstract state [σ]: same base, and the
    driver's bytes are the spec's. *)
Definition refines s (σ : spec_state) : Prop :=
  base_adr s = sp_base σ /\ (forall x, flash_mem (chip s) x = sp_mem σ x) /\ flashprg_inv s.

(** ** The simulation *)

Lemma spec_run_cons c cs σ :
  spec_run (c :: cs) σ =
  ((spec_run cs (spec_step c σ).1).1, (spec_step c σ).2 :: (spec_run cs (spec_step c σ).1).2).
Proof. cbn. destruct (spec_step c σ) as [σ1 r]. cbn. by destruct (spec_run cs σ1). Qed.

(** Inside the session, the code's 32-bit offset is the spec's. *)
Lemma refines_offset s σ adr :
  refines s σ -> in_session σ adr -> dev_offset s adr = sp_offset σ adr.
Proof.
  intros (Hb & _ & _ & _ & Hu & _) [Hle Ha]. unfold dev_offset, sp_offset.
  rewrite Hb in *. by apply wrap32_sub_nowrap.
Qed.

(** A read is a slice of the memory the driver implements. *)
Lemma refines_read s σ off n :
  refines s σ -> W25QXX_Read (chip s) off n = sp_slice (sp_mem σ) off n.
Proof. intros (_ & Hm & _). rewrite mem_read. apply list_fmap_ext. intros. apply Hm. Qed.

(** One call within the contract returns what the spec's machine
    returns, and keeps the states related. *)
Lemma dispatch_refines s σ c :
  refines s σ -> spec_ok σ c ->
  exists s', dispatch c s = Ok (s', (spec_step c σ).2) /\ refines s' (spec_step c σ).1.
Proof.
  intros Hr (Hwf & Hok & Hc). pose proof Hr as (Hb & Hm & Hinv).
  destruct c as [adr clk fnc | fnc | | adr | adr sz pat | adr sz buf | adr sz buf];
    cbn [dispatch spec_step fst snd call_wf call_ok] in *.
  - exists (Init adr clk fnc s).1. split; [done |].
    split_and!; [done | intros x; cbn; rewrite mem_init; apply Hm | by apply Init_inv].
  - by exists s.
  - exists (EraseChip s).1. split; [done |].
    split_and!; [done | intros x; apply mem_erase_chip | by apply EraseChip_inv].
  - exists (EraseSector adr s).1. split; [done |].
    split_and!; [done | | by apply EraseSector_inv].
    intros x. cbn. rewrite mem_erase_sector, (refines_offset s σ adr) by done.
    case_decide; [done | apply Hm].
  - by exists s.
  - destruct Hc as (Hin & Hsz & Her). unfold ProgramPage. rewrite decide_True by done.
    eexists. split; [done |].
    split_and!; [done | | by eapply (ProgramPage_inv s adr sz buf); [| | unfold ProgramPage; rewrite decide_True]].
    intros x. cbn. rewrite (refines_offset s σ adr) by done. case_decide.
    + apply mem_write_erased; [done | done |]. rewrite Hm. apply Her. lia.
    + rewrite mem_write_other by done. apply Hm.
  - destruct Hc as (Hin & ->), Hok as [_ Hlen].
    pose proof (Verify_spec_eq s adr PAGE_SIZE buf) as Hv.
    rewrite Hv, (refines_read s σ), (refines_offset s σ adr) by (done || unfold PAGE_SIZE; lia).
    eexists. split; [done |]. split_and!; [done | apply Hm |].
    eapply Verify_inv; [exact Hinv |]. apply Hv; (done || unfold PAGE_SIZE; lia).
Qed.

(** C24: Refinement of the spec's abstract machine (§3, §4.1): from
    related states, every run of calls within the host's contract
    returns exactly the values the spec's machine returns, and ends in
    a related state, with the same base and the same device bytes. *)
Theorem run_refines s σ cs :
  refines s σ -> spec_ok_run σ cs ->
  exists s', run cs s = Ok (s', (spec_run cs σ).2) /\ refines s' (spec_run cs σ).1.
Proof.
  revert s σ. induction cs as [| c cs IH]; intros s σ Hr Hok; [by exists s |].
  destruct Hok as [Hc Hok].
  destruct (dispatch_refines s σ c Hr Hc) as (s1 & Hd & Hr1).
  destruct (IH s1 _ Hr1 Hok) as (s2 & Hrun & Hr2).
  exists s2. rewrite spec_run_cons, (run_cons_Ok _ _ _ _ _ Hd), Hrun. by split.
Qed.
End Simulation.

(** ** The session of [Session] against the spec *)

(** The algorithm after [Init ex_base] on a blank chip, as the spec sees it. *)
Definition ex_spec : spec_state := SpecState ex_base (fun _ => ERASED).

Lemma ex_session_refines : refines ex_session ex_spec.
Proof.
  split_and!; [done | intros x; reflexivity |]. apply reachable_flashprg_inv, ex_session_reachable.
Qed.

Lemma ex_calls_spec_ok : spec_ok_run ex_spec ex_calls.
Proof.
  assert (forall σ, sp_base σ = ex_base -> in_session σ ex_adr) as Hin.
  { intros σ Hb. unfold in_session. rewrite Hb. split; by_decide. }
  pose proof ex_calls_ok as Hcs. unfold ex_calls in Hcs.
  inversion_clear Hcs as [| ? ? [Hwf1 Hok1] Hcs2].
  inversion_clear Hcs2 as [| ? ? [Hwf2 Hok2] Hcs3].
  inversion_clear Hcs3 as [| ? ? [Hwf3 Hok3] _].
  unfold ex_calls, spec_ok. cbn [spec_ok_run]. split_and!; [| | | done].
  - split_and!; [done | done | by apply Hin].
  - split_and!; [done | done | by apply Hin | unfold PAGE_SIZE; lia |].
    intros y _. cbn. by case_decide.
  - split_and!; [done | done | by apply Hin | done].
Qed.

Lemma run_refines_witness :
  refines ex_session ex_spec /\ spec_ok_run ex_spec ex_calls /\
  exists s', run ex_calls ex_session = Ok (s', (spec_run ex_calls ex_spec).2) /\
             refines s' (spec_run ex_calls ex_spec).1.
Proof.
  split; [apply ex_session_refines | split; [apply ex_calls_spec_ok |]].
  apply run_refines; [apply ex_session_refines | apply ex_calls_spec_ok].
Defined.
